(** * ECE-198 firmware: the heap hook [_sbrk] and the ADC acquisition loop

    Shallow embedding of [ECE198Project/Core/Src/sysmem.c] and of
    [Core/Src/main.c].

    The target is a 32-bit Cortex-M4 (STM32F4): pointers, [uintptr_t] and
    [uint32_t] are 32-bit unsigned, [ptrdiff_t] is 32-bit signed.  Addresses
    are integers in [Z]; every place where the machine wraps around is
    written out with [to_uintptr]. *)

From Stdlib Require Import ZArith NArith Lia List Bool Ascii String.
From ITree Require Import ITree ITreeFacts.
From Paco Require Import paco.
Import ListNotations.
Import ITreeNotations.

(** ** sysmem.c *)

Module Sysmem.

Local Open Scope Z_scope.

Definition ptr_modulus : Z := 2 ^ 32.

(** Conversion of an integer to [uintptr_t] (and to a pointer). *)
Definition to_uintptr (z : Z) : Z := z mod ptr_modulus.

(** [p + i] on a [uint8_t *]: the element size is 1, the address wraps. *)
Definition ptr_add (p i : Z) : Z := to_uintptr (p + i).

Definition NULL : Z := 0.

(** [ENOMEM] of newlib's <errno.h>. *)
Definition ENOMEM : Z := 12.

(** [(void * )-1]. *)
Definition SBRK_FAILED : Z := to_uintptr (-1).

(** The range of an address. *)
Definition uintptr_range (p : Z) : Prop := 0 <= p < ptr_modulus.

(** The mutable globals [_sbrk] touches: the file-scope static
    [__sbrk_heap_end] and the C library's [errno]. *)
Record globals : Type := mkGlobals {
  __sbrk_heap_end : Z;
  errno : Z
}.

(** State at program start: [static uint8_t *__sbrk_heap_end = NULL]. *)
Definition initial_globals (errno0 : Z) : globals :=
  {| __sbrk_heap_end := NULL; errno := errno0 |}.

Section LinkerSymbols.

(** [&_end], [&_estack] and the [uint32_t] read from [_Min_Stack_Size]. *)
Variables (_end _estack _Min_Stack_Size : Z).

(** Lines 61-63:
    [stack_limit = estack_addr - (uintptr_t)_Min_Stack_Size]. *)
Definition estack_addr : Z := to_uintptr _estack.
Definition stack_limit : Z :=
  to_uintptr (estack_addr - to_uintptr _Min_Stack_Size).
Definition max_heap : Z := stack_limit.

(** Lines 67-70: the heap end the bounds check works on. *)
Definition heap_end_at_check (g : globals) : Z :=
  if __sbrk_heap_end g =? NULL then _end else __sbrk_heap_end g.

(** [void *_sbrk(ptrdiff_t incr)]: result and globals after the call. *)
Definition _sbrk (incr : Z) (g : globals) : Z * globals :=
  let g1 :=
    if __sbrk_heap_end g =? NULL
    then {| __sbrk_heap_end := _end; errno := errno g |}
    else g in
  if ptr_add (__sbrk_heap_end g1) incr >? max_heap
  then (SBRK_FAILED,
        {| __sbrk_heap_end := __sbrk_heap_end g1; errno := ENOMEM |})
  else
    let prev_heap_end := __sbrk_heap_end g1 in
    (prev_heap_end,
     {| __sbrk_heap_end := ptr_add (__sbrk_heap_end g1) incr;
        errno := errno g1 |}).

(** Line 73: does the bounds check let the request through? *)
Definition sbrk_accepts (incr : Z) (g : globals) : bool :=
  negb (ptr_add (heap_end_at_check g) incr >? max_heap).

(** A sequence of calls, threading the globals; the results are dropped. *)
Fixpoint sbrk_calls (incrs : list Z) (g : globals) : globals :=
  match incrs with
  | [] => g
  | incr :: rest => sbrk_calls rest (snd (_sbrk incr g))
  end.

(** Was some call of the sequence turned down by the bounds check? *)
Fixpoint sbrk_any_refused (incrs : list Z) (g : globals) : bool :=
  match incrs with
  | [] => false
  | incr :: rest =>
      negb (sbrk_accepts incr g) || sbrk_any_refused rest (snd (_sbrk incr g))
  end.

End LinkerSymbols.

End Sysmem.

(** ** main.c *)

Module Firmware.

Local Open Scope N_scope.
Local Open Scope itree_scope.

(** *** What the vendor HAL declares *)

(** [HAL_StatusTypeDef] of [stm32f4xx_hal_def.h]. *)
Inductive HAL_StatusTypeDef : Type :=
| HAL_OK | HAL_ERROR | HAL_BUSY | HAL_TIMEOUT.

Definition status_eqb (a b : HAL_StatusTypeDef) : bool :=
  match a, b with
  | HAL_OK, HAL_OK | HAL_ERROR, HAL_ERROR
  | HAL_BUSY, HAL_BUSY | HAL_TIMEOUT, HAL_TIMEOUT => true
  | _, _ => false
  end.

Definition HAL_MAX_DELAY : N := 0xFFFFFFFF.

(** The range of a [uint32_t]. *)
Definition uint32_range (v : N) : Prop := v < 2 ^ 32.

Inductive FunctionalState : Type := DISABLE | ENABLE.

(** Peripherals and register-level constants the source names; their
    numeric values live in the vendor headers and play no role here. *)
Inductive peripheral : Type := GPIOA | ADC1 | USART2.

Inductive hal_constant : Type :=
| ADC_RESOLUTION_12B | ADC_EXTERNALTRIGCONVEDGE_NONE | ADC_DATAALIGN_RIGHT
| ADC_CHANNEL_0 | ADC_SAMPLETIME_3CYCLES
| UART_WORDLENGTH_8B | UART_STOPBITS_1 | UART_PARITY_NONE
| UART_MODE_TX_RX | UART_HWCONTROL_NONE | UART_OVERSAMPLING_16.

(** The fields of [hadc1.Init] that [MX_ADC1_Init] assigns. *)
Record ADC_InitTypeDef : Type := {
  Resolution : hal_constant;
  ScanConvMode : FunctionalState;
  ContinuousConvMode : FunctionalState;
  DiscontinuousConvMode : FunctionalState;
  ExternalTrigConvEdge : hal_constant;
  DataAlign : hal_constant;
  NbrOfConversion : N
}.

Record ADC_ChannelConfTypeDef : Type := {
  Channel : hal_constant;
  Rank : N;
  SamplingTime : hal_constant
}.

(** The fields of [huart2.Init] that [MX_USART2_UART_Init] assigns. *)
Record UART_InitTypeDef : Type := {
  BaudRate : N;
  WordLength : hal_constant;
  StopBits : hal_constant;
  Parity : hal_constant;
  Mode : hal_constant;
  HwFlowCtl : hal_constant;
  OverSampling : hal_constant
}.

(** The calls [main.c] makes into the HAL, each with its result type.
    [HAL_UART_Transmit] carries the bytes of the buffer [pData] points to. *)
Variant halE : Type -> Type :=
| HAL_Init : halE HAL_StatusTypeDef
| HAL_RCC_CLK_ENABLE (p : peripheral) : halE unit
| HAL_ADC_Init (init : ADC_InitTypeDef) : halE HAL_StatusTypeDef
| HAL_ADC_ConfigChannel (sConfig : ADC_ChannelConfTypeDef)
  : halE HAL_StatusTypeDef
| HAL_UART_Init (init : UART_InitTypeDef) : halE HAL_StatusTypeDef
| HAL_ADC_Start : halE HAL_StatusTypeDef
| HAL_ADC_PollForConversion (Timeout : N) : halE HAL_StatusTypeDef
| HAL_ADC_GetValue : halE N
| HAL_UART_Transmit (pData : list ascii) (Size : N) (Timeout : N)
  : halE HAL_StatusTypeDef
| HAL_Delay (Delay : N) : halE unit.

(** *** The C library: [snprintf] with the format of line 47, [strlen] *)

Definition NUL : ascii := ascii_of_N 0.
Definition CR : ascii := ascii_of_N 13.
Definition LF : ascii := ascii_of_N 10.

Definition digit_char (d : N) : ascii := ascii_of_N (48 + d).

(** Decimal digits of [n], least significant first; [fuel] bounds the
    number of digits produced. *)
Fixpoint utoa_rev (fuel : nat) (n : N) : list ascii :=
  match fuel with
  | O => []
  | S fuel' =>
      digit_char (n mod 10)
      :: (if n / 10 =? 0 then [] else utoa_rev fuel' (n / 10))
  end.

(** The [%lu] conversion.  A number has no more decimal digits than binary
    ones, so the fuel never runs out ([utoa_rev_value] below). *)
Definition utoa (n : N) : list ascii :=
  rev (utoa_rev (S (N.to_nat (N.log2 n))) n).

(** Reading a decimal numeral back. *)
Definition digit_value (c : ascii) : N := N_of_ascii c - 48.

Definition decimal_value (digits : list ascii) : N :=
  fold_left (fun acc c => 10 * acc + digit_value c) digits 0.

(** The text [snprintf] is asked to produce for
    ["ADC: %lu\r\n"] and [adc_value]. *)
Definition format_ADC (adc_value : N) : list ascii :=
  list_ascii_of_string "ADC: " ++ utoa adc_value ++ [CR; LF].

(** [snprintf(buf, size, ...)]: at most [size - 1] characters of the text are
    stored, followed by the terminating NUL.  The value is the part of the
    buffer that has been written. *)
Definition snprintf (size : nat) (text : list ascii) : list ascii :=
  match size with
  | O => []
  | S room => firstn room text ++ [NUL]
  end.

(** [strlen]: the number of characters before the first NUL. *)
Fixpoint strlen (buf : list ascii) : N :=
  match buf with
  | [] => 0
  | c :: rest => if Ascii.eqb c NUL then 0 else N.succ (strlen rest)
  end.

(** *** main.c *)

(** Lines 115-121: [while (1) { }]. *)
Definition Error_Handler : itree halE unit := ITree.forever (Ret tt).

(** Lines 109-112. *)
Definition SystemClock_Config : itree halE unit := Ret tt.

(** Lines 102-106. *)
Definition MX_GPIO_Init : itree halE unit :=
  ITree.trigger (HAL_RCC_CLK_ENABLE GPIOA).

Definition hadc1_Init : ADC_InitTypeDef :=
  {| Resolution := ADC_RESOLUTION_12B;
     ScanConvMode := DISABLE;
     ContinuousConvMode := ENABLE;
     DiscontinuousConvMode := DISABLE;
     ExternalTrigConvEdge := ADC_EXTERNALTRIGCONVEDGE_NONE;
     DataAlign := ADC_DATAALIGN_RIGHT;
     NbrOfConversion := 1 |}.

Definition ADC_REGULAR_RANK_1 : N := 1.

Definition sConfig : ADC_ChannelConfTypeDef :=
  {| Channel := ADC_CHANNEL_0;
     Rank := ADC_REGULAR_RANK_1;
     SamplingTime := ADC_SAMPLETIME_3CYCLES |}.

(** Lines 55-80. *)
Definition MX_ADC1_Init : itree halE unit :=
  ITree.trigger (HAL_RCC_CLK_ENABLE ADC1) ;;
  st <- ITree.trigger (HAL_ADC_Init hadc1_Init) ;;
  (if negb (status_eqb st HAL_OK) then Error_Handler else Ret tt) ;;
  st <- ITree.trigger (HAL_ADC_ConfigChannel sConfig) ;;
  (if negb (status_eqb st HAL_OK) then Error_Handler else Ret tt).

Definition huart2_Init : UART_InitTypeDef :=
  {| BaudRate := 9600;
     WordLength := UART_WORDLENGTH_8B;
     StopBits := UART_STOPBITS_1;
     Parity := UART_PARITY_NONE;
     Mode := UART_MODE_TX_RX;
     HwFlowCtl := UART_HWCONTROL_NONE;
     OverSampling := UART_OVERSAMPLING_16 |}.

(** Lines 83-99. *)
Definition MX_USART2_UART_Init : itree halE unit :=
  ITree.trigger (HAL_RCC_CLK_ENABLE USART2) ;;
  st <- ITree.trigger (HAL_UART_Init huart2_Init) ;;
  (if negb (status_eqb st HAL_OK) then Error_Handler else Ret tt).

(** [sizeof(msg)] for [char msg[20]]. *)
Definition sizeof_msg : nat := 20.

(** Lines 40-50: the body of the [while (1)] of [main]. *)
Definition sampling_body : itree halE unit :=
  st <- ITree.trigger (HAL_ADC_PollForConversion HAL_MAX_DELAY) ;;
  if status_eqb st HAL_OK
  then
    adc_value <- ITree.trigger HAL_ADC_GetValue ;;
    let msg := snprintf sizeof_msg (format_ADC adc_value) in
    ITree.trigger (HAL_UART_Transmit msg (strlen msg) HAL_MAX_DELAY) ;;
    ITree.trigger (HAL_Delay 50)
  else Ret tt.

(** Lines 38-51. *)
Definition sampling_loop : itree halE Z := ITree.forever sampling_body.

(** Lines 19-52. *)
Definition main : itree halE Z :=
  ITree.trigger HAL_Init ;;
  SystemClock_Config ;;
  MX_GPIO_Init ;;
  MX_ADC1_Init ;;
  MX_USART2_UART_Init ;;
  ITree.trigger HAL_ADC_Start ;;
  sampling_loop.

(** *** The board: what the HAL answers *)

(** One HAL call together with the value it returned. *)
Record call : Type := Call {
  call_type : Type;
  call_event : halE call_type;
  call_result : call_type
}.
Arguments Call {call_type} call_event call_result.

(** A scripted board.  Each entry of [conversions] is one wait for a
    conversion: the status the wait reports and the content of the data
    register afterwards.  [calls] records, oldest first, the HAL calls made
    so far. *)
Record board : Type := mkBoard {
  hal_init_status : HAL_StatusTypeDef;
  adc_init_status : HAL_StatusTypeDef;
  adc_config_status : HAL_StatusTypeDef;
  uart_init_status : HAL_StatusTypeDef;
  adc_start_status : HAL_StatusTypeDef;
  uart_transmit_status : HAL_StatusTypeDef;
  conversions : list (HAL_StatusTypeDef * N);
  ADC_DR : N;
  calls : list call
}.

Definition record_call (c : call) (b : board) : board :=
  mkBoard (hal_init_status b) (adc_init_status b) (adc_config_status b)
          (uart_init_status b) (adc_start_status b) (uart_transmit_status b)
          (conversions b) (ADC_DR b) (calls b ++ [c]).

Definition record_calls (cs : list call) (b : board) : board :=
  fold_left (fun b' c => record_call c b') cs b.

Definition next_conversion (dr : N) (rest : list (HAL_StatusTypeDef * N))
    (b : board) : board :=
  mkBoard (hal_init_status b) (adc_init_status b) (adc_config_status b)
          (uart_init_status b) (adc_start_status b) (uart_transmit_status b)
          rest dr (calls b).

(** The answer of the board to a call; [None] when the call never returns:
    a wait with [HAL_MAX_DELAY] for a conversion that never completes. *)
Definition respond {T : Type} (e : halE T) (b : board) : option (T * board) :=
  match e in halE T return option (T * board) with
  | HAL_Init => Some (hal_init_status b, b)
  | HAL_RCC_CLK_ENABLE _ => Some (tt, b)
  | HAL_ADC_Init _ => Some (adc_init_status b, b)
  | HAL_ADC_ConfigChannel _ => Some (adc_config_status b, b)
  | HAL_UART_Init _ => Some (uart_init_status b, b)
  | HAL_ADC_Start => Some (adc_start_status b, b)
  | HAL_ADC_PollForConversion _ =>
      match conversions b with
      | [] => None
      | (st, dr) :: rest => Some (st, next_conversion dr rest b)
      end
  | HAL_ADC_GetValue => Some (ADC_DR b, b)
  | HAL_UART_Transmit _ _ _ => Some (uart_transmit_status b, b)
  | HAL_Delay _ => Some (tt, b)
  end.

(** How far an execution got. *)
Inductive progress (R : Type) : Type :=
| Returned (r : R)   (* the program returned *)
| Blocked            (* inside a HAL call that never returns *)
| Running.           (* still executing after the steps observed *)
Arguments Returned {R} r.
Arguments Blocked {R}.
Arguments Running {R}.

(** Run [t] on board [b] for at most [steps] steps; a step is one HAL call
    or one jump back to the head of a loop. *)
Fixpoint exec {R : Type} (steps : nat) (t : itree halE R) (b : board)
    : progress R * board :=
  match steps with
  | O => (Running, b)
  | S steps' =>
      match observe t with
      | RetF r => (Returned r, b)
      | TauF t' => exec steps' t' b
      | VisF e k =>
          match respond e b with
          | None => (Blocked, b)
          | Some (x, b') => exec steps' (k x) (record_call (Call e x) b')
          end
      end
  end.

(** The bytes put on the serial line by a call: [Size] bytes from [pData]. *)
Definition transmitted (c : call) : list (list ascii) :=
  match call_event c with
  | HAL_UART_Transmit pData Size _ => [firstn (N.to_nat Size) pData]
  | _ => []
  end.

(** The serial output of a run, one element per [HAL_UART_Transmit]. *)
Definition uart_output (b : board) : list (list ascii) :=
  flat_map transmitted (calls b).

Definition is_conversion_read (c : call) : bool :=
  match call_event c with
  | HAL_ADC_GetValue => true
  | _ => false
  end.

(** A board at reset whose five start-up calls report [HAL_OK]. *)
Definition board_at_reset (tx : HAL_StatusTypeDef)
    (script : list (HAL_StatusTypeDef * N)) : board :=
  mkBoard HAL_OK HAL_OK HAL_OK HAL_OK HAL_OK tx script 0 [].

(** A character other than the string terminator. *)
Definition not_NUL (c : ascii) : Prop := Ascii.eqb c NUL = false.

(** The start-up calls of [main], up to and including [HAL_ADC_Start], on a
    board whose converter and serial channel initialise. *)
Definition startup_calls (b : board) : list call :=
  [Call HAL_Init (hal_init_status b);
   Call (HAL_RCC_CLK_ENABLE GPIOA) tt;
   Call (HAL_RCC_CLK_ENABLE ADC1) tt;
   Call (HAL_ADC_Init hadc1_Init) HAL_OK;
   Call (HAL_ADC_ConfigChannel sConfig) HAL_OK;
   Call (HAL_RCC_CLK_ENABLE USART2) tt;
   Call (HAL_UART_Init huart2_Init) HAL_OK;
   Call HAL_ADC_Start (adc_start_status b)].

(** The start-up calls of [main] up to the failing [HAL_UART_Init]. *)
Definition calls_until_uart_init (b : board) : list call :=
  [Call HAL_Init (hal_init_status b);
   Call (HAL_RCC_CLK_ENABLE GPIOA) tt;
   Call (HAL_RCC_CLK_ENABLE ADC1) tt;
   Call (HAL_ADC_Init hadc1_Init) HAL_OK;
   Call (HAL_ADC_ConfigChannel sConfig) HAL_OK;
   Call (HAL_RCC_CLK_ENABLE USART2) tt;
   Call (HAL_UART_Init huart2_Init) (uart_init_status b)].

(** A scripted run of conversions that all complete. *)
Definition completed (samples : list N) : list (HAL_StatusTypeDef * N) :=
  List.map (fun v => (HAL_OK, v)) samples.

(** A line of text (no control characters) followed by CR LF. *)
Definition line (text : string) : list ascii :=
  list_ascii_of_string text ++ [CR; LF].

(** The HAL calls of one pass through the loop body (lines 41-49) when the
    wait reports [st] and leaves [dr] in the data register; [tx] is what
    [HAL_UART_Transmit] returns. *)
Definition pass_calls (tx : HAL_StatusTypeDef)
    (conversion : HAL_StatusTypeDef * N) : list call :=
  let (st, dr) := conversion in
  Call (HAL_ADC_PollForConversion HAL_MAX_DELAY) st
  :: (if status_eqb st HAL_OK
      then [Call HAL_ADC_GetValue dr;
            Call (HAL_UART_Transmit
                    (snprintf sizeof_msg (format_ADC dr))
                    (strlen (snprintf sizeof_msg (format_ADC dr)))
                    HAL_MAX_DELAY) tx;
            Call (HAL_Delay 50) tt]
      else []).

(** The steps of that pass: its calls and the jump back. *)
Definition pass_steps (conversion : HAL_StatusTypeDef * N) : nat :=
  if status_eqb (fst conversion) HAL_OK then 5 else 2.

Definition loop_steps (script : list (HAL_StatusTypeDef * N)) : nat :=
  list_sum (List.map pass_steps script).

(** The data of the waits that reported [HAL_OK], in order. *)
Definition converted (script : list (HAL_StatusTypeDef * N)) : list N :=
  flat_map (fun conversion : HAL_StatusTypeDef * N =>
              if status_eqb (fst conversion) HAL_OK
              then [snd conversion] else [])
           script.

(** All the HAL calls [main] makes on a board, in order (lines 22-50): the
    start-up calls as far as the first failing initialisation, and, when
    there is none, one pass through the loop body for each scripted wait. *)
Definition main_calls (b : board) : list call :=
  [Call HAL_Init (hal_init_status b);
   Call (HAL_RCC_CLK_ENABLE GPIOA) tt;
   Call (HAL_RCC_CLK_ENABLE ADC1) tt;
   Call (HAL_ADC_Init hadc1_Init) (adc_init_status b)]
  ++ (if negb (status_eqb (adc_init_status b) HAL_OK) then [] else
      Call (HAL_ADC_ConfigChannel sConfig) (adc_config_status b)
      :: (if negb (status_eqb (adc_config_status b) HAL_OK) then [] else
          Call (HAL_RCC_CLK_ENABLE USART2) tt
          :: Call (HAL_UART_Init huart2_Init) (uart_init_status b)
          :: (if negb (status_eqb (uart_init_status b) HAL_OK) then [] else
              Call HAL_ADC_Start (adc_start_status b)
              :: flat_map (pass_calls (uart_transmit_status b))
                          (conversions b)))).

(** Steps after which [main] has made all of [main_calls]. *)
Definition main_steps (b : board) : nat :=
  if negb (status_eqb (adc_init_status b) HAL_OK) then 4
  else if negb (status_eqb (adc_config_status b) HAL_OK) then 5
  else if negb (status_eqb (uart_init_status b) HAL_OK) then 7
  else 8 + (loop_steps (conversions b) + 1).

(** A wait for a conversion that reported [HAL_OK]. *)
Definition is_completed_wait (c : call) : bool :=
  match call_event c in halE T return T -> bool with
  | HAL_ADC_PollForConversion _ => fun st => status_eqb st HAL_OK
  | _ => fun _ => false
  end (call_result c).

(** Is every [HAL_ADC_GetValue] of the list directly after a wait that
    reported [HAL_OK]?  [after_wait] says whether the list itself comes
    directly after one. *)
Fixpoint reads_follow_waits (after_wait : bool) (cs : list call) : bool :=
  match cs with
  | [] => true
  | c :: rest =>
      implb (is_conversion_read c) after_wait
      && reads_follow_waits (is_completed_wait c) rest
  end.

(** A decimal digit, ['0'] to ['9']. *)
Definition is_digit (c : ascii) : bool :=
  (48 <=? N_of_ascii c) && (N_of_ascii c <=? 57).

End Firmware.

(** * Properties of [_sbrk] *)

Module SysmemSpec.

Import Sysmem.
Local Open Scope Z_scope.

Lemma to_uintptr_range (z : Z) : uintptr_range (to_uintptr z).
Proof.
  unfold uintptr_range, to_uintptr, ptr_modulus.
  apply Z.mod_pos_bound. lia.
Qed.

Lemma to_uintptr_small (z : Z) : uintptr_range z -> to_uintptr z = z.
Proof. unfold uintptr_range, to_uintptr. apply Z.mod_small. Qed.

(** Where the sum stays inside the address space, pointer addition is
    integer addition. *)
Lemma ptr_add_no_wrap (p i : Z) : uintptr_range (p + i) -> ptr_add p i = p + i.
Proof. apply to_uintptr_small. Qed.

Lemma max_heap_range (_estack _Min_Stack_Size : Z) :
  uintptr_range (max_heap _estack _Min_Stack_Size).
Proof. apply to_uintptr_range. Qed.

Section LinkerSymbols.

Variables (_end _estack _Min_Stack_Size : Z).

Local Abbreviation sbrk := (_sbrk _end _estack _Min_Stack_Size).
Local Abbreviation limit := (max_heap _estack _Min_Stack_Size).
Local Abbreviation current := (heap_end_at_check _end).

(** The two outcomes of a call, in terms of the heap end the bounds check
    works on. *)
Lemma sbrk_unfold (incr : Z) (g : globals) :
  sbrk incr g =
  if ptr_add (current g) incr >? limit
  then (SBRK_FAILED, {| __sbrk_heap_end := current g; errno := ENOMEM |})
  else (current g,
        {| __sbrk_heap_end := ptr_add (current g) incr; errno := errno g |}).
Proof.
  unfold _sbrk, heap_end_at_check.
  destruct (__sbrk_heap_end g =? NULL); reflexivity.
Qed.

Lemma current_initialised (g : globals) :
  __sbrk_heap_end g <> NULL -> current g = __sbrk_heap_end g.
Proof.
  intros Hnz. unfold heap_end_at_check.
  destruct (Z.eqb_spec (__sbrk_heap_end g) NULL); [contradiction | reflexivity].
Qed.

Lemma current_first_call (g : globals) :
  __sbrk_heap_end g = NULL -> current g = _end.
Proof. intros Hz. unfold heap_end_at_check. now rewrite Hz. Qed.

(** The heap end stays within the limit across one call, provided the
    baseline is within it. *)
Lemma sbrk_preserves_limit (incr : Z) (g : globals) :
  _end <= limit ->
  __sbrk_heap_end g <= limit ->
  __sbrk_heap_end (snd (sbrk incr g)) <= limit.
Proof.
  intros Hend Hg. rewrite sbrk_unfold.
  destruct (ptr_add (current g) incr >? limit) eqn:Hcmp; cbn.
  - unfold heap_end_at_check. destruct (__sbrk_heap_end g =? NULL); assumption.
  - rewrite Z.gtb_ltb in Hcmp. apply Z.ltb_ge in Hcmp. exact Hcmp.
Qed.

Lemma sbrk_calls_preserve_limit (incrs : list Z) :
  _end <= limit ->
  forall g, __sbrk_heap_end g <= limit ->
            __sbrk_heap_end (sbrk_calls _end _estack _Min_Stack_Size incrs g)
            <= limit.
Proof.
  intros Hend. induction incrs as [| incr rest IH]; intros g Hg; cbn.
  - exact Hg.
  - apply IH. now apply sbrk_preserves_limit.
Qed.

End LinkerSymbols.

(** C1.  Whenever the heap end plus the increment, the pointer
    [__sbrk_heap_end + incr] the code forms after lines 67-70 (a 32-bit
    address, the sum taken modulo [2 ^ 32]), does not exceed [max_heap], the
    call returns the heap end as it stood before the advance
    and stores that pointer sum as the new heap end, leaving [errno] alone.
    The heap end before the advance is the stored [__sbrk_heap_end] when that
    is set, and the baseline [&_end] on a first call; where the sum does not
    leave the 32-bit address space the new heap end is the old one plus
    exactly [incr]. *)
Theorem sbrk_success_returns_prior_end_and_advances
    (_end _estack _Min_Stack_Size incr : Z) (g : globals) :
  let prior := heap_end_at_check _end g in
  ptr_add prior incr <= max_heap _estack _Min_Stack_Size ->
  _sbrk _end _estack _Min_Stack_Size incr g =
    (prior, {| __sbrk_heap_end := ptr_add prior incr; errno := errno g |})
  /\ (__sbrk_heap_end g <> NULL -> prior = __sbrk_heap_end g)
  /\ (__sbrk_heap_end g = NULL -> prior = _end)
  /\ (uintptr_range (prior + incr) -> ptr_add prior incr = prior + incr).
Proof.
  intros prior Hfits. subst prior. repeat split.
  - rewrite sbrk_unfold.
    destruct (ptr_add (heap_end_at_check _end g) incr
              >? max_heap _estack _Min_Stack_Size) eqn:Hcmp; [| reflexivity].
    rewrite Z.gtb_ltb in Hcmp. apply Z.ltb_lt in Hcmp. lia.
  - apply current_initialised.
  - apply current_first_call.
  - apply ptr_add_no_wrap.
Qed.

Lemma sbrk_success_witness :
  _sbrk 0x20000000 0x20002000 0x1000 0x800
        {| __sbrk_heap_end := 0x20000000; errno := 0 |}
  = (0x20000000, {| __sbrk_heap_end := 0x20000800; errno := 0 |}).
Proof.
  refine (proj1 (sbrk_success_returns_prior_end_and_advances
                   0x20000000 0x20002000 0x1000 0x800
                   {| __sbrk_heap_end := 0x20000000; errno := 0 |} _)).
  vm_compute. discriminate.
Defined.

(** C2.  Whenever the heap end plus the increment (the same pointer sum)
    exceeds [max_heap], the call returns [(void * )-1], sets [errno] to
    [ENOMEM] and leaves the heap end where it was: at the stored pointer, or,
    on a first call, at the baseline [&_end] that lines 67-70 establish
    before the check.  The same call made again gives the same result and
    the same globals. *)
Theorem sbrk_failure_is_clean_and_idempotent
    (_end _estack _Min_Stack_Size incr : Z) (g : globals) :
  let prior := heap_end_at_check _end g in
  ptr_add prior incr > max_heap _estack _Min_Stack_Size ->
  let result := fst (_sbrk _end _estack _Min_Stack_Size incr g) in
  let g' := snd (_sbrk _end _estack _Min_Stack_Size incr g) in
  result = SBRK_FAILED
  /\ errno g' = ENOMEM
  /\ __sbrk_heap_end g' = prior
  /\ heap_end_at_check _end g' = prior
  /\ (__sbrk_heap_end g <> NULL -> __sbrk_heap_end g' = __sbrk_heap_end g)
  /\ _sbrk _end _estack _Min_Stack_Size incr g' = (SBRK_FAILED, g').
Proof.
  intros prior Hover result g'. subst result g'.
  assert (Hcmp : (ptr_add prior incr >? max_heap _estack _Min_Stack_Size)
                 = true).
  { rewrite Z.gtb_ltb. apply Z.ltb_lt. lia. }
  assert (Hprior : heap_end_at_check _end
            {| __sbrk_heap_end := prior; errno := ENOMEM |} = prior).
  { unfold heap_end_at_check; cbn.
    destruct (Z.eqb_spec prior NULL) as [Hz | Hnz]; [| reflexivity].
    subst prior. unfold heap_end_at_check in *.
    destruct (Z.eqb_spec (__sbrk_heap_end g) NULL); congruence. }
  rewrite sbrk_unfold. fold prior. rewrite Hcmp. cbn.
  repeat split; try assumption.
  - intros Hnz. subst prior. now apply current_initialised.
  - rewrite sbrk_unfold, Hprior, Hcmp. reflexivity.
Qed.

Lemma sbrk_failure_witness :
  fst (_sbrk 0x20000000 0x20002000 0x1000 0x900
             {| __sbrk_heap_end := 0x20000800; errno := 0 |}) = SBRK_FAILED.
Proof.
  refine (proj1 (sbrk_failure_is_clean_and_idempotent
                   0x20000000 0x20002000 0x1000 0x900
                   {| __sbrk_heap_end := 0x20000800; errno := 0 |} _)).
  vm_compute. reflexivity.
Defined.

(** C3, as stated, fails: with the static data ending above the reserved
    stack ([&_end = 0x20002000], limit [0x20001000]) the first call stores
    [&_end] in the heap end before the bounds check, the check rejects the
    request, and the heap end stays above the limit. *)
Lemma sbrk_heap_end_above_limit_when_baseline_is :
  __sbrk_heap_end
    (sbrk_calls 0x20002000 0x20002000 0x1000 [0] (initial_globals 0))
  > max_heap 0x20002000 0x1000.
Proof. vm_compute. reflexivity. Qed.

(** C3, amended.  Provided the baseline [&_end] is itself at or below the
    stack-reserved boundary, after any sequence of calls made from program
    start the heap end, both as stored and as the next bounds check will see
    it, does not exceed that boundary.  The boundary is the top-of-RAM
    address minus the minimum stack size whenever the stack size does not
    exceed that address. *)
Theorem sbrk_heap_end_within_limit
    (_end _estack _Min_Stack_Size errno0 : Z) (incrs : list Z) :
  _end <= max_heap _estack _Min_Stack_Size ->
  let g := sbrk_calls _end _estack _Min_Stack_Size incrs
                      (initial_globals errno0) in
  __sbrk_heap_end g <= max_heap _estack _Min_Stack_Size
  /\ heap_end_at_check _end g <= max_heap _estack _Min_Stack_Size
  /\ (uintptr_range _estack -> 0 <= _Min_Stack_Size <= _estack ->
      max_heap _estack _Min_Stack_Size = _estack - _Min_Stack_Size).
Proof.
  intros Hend g.
  assert (Hg : __sbrk_heap_end g <= max_heap _estack _Min_Stack_Size).
  { apply sbrk_calls_preserve_limit; [exact Hend |].
    cbn. apply (max_heap_range _estack _Min_Stack_Size). }
  split; [exact Hg | split].
  - unfold heap_end_at_check.
    destruct (__sbrk_heap_end g =? NULL); assumption.
  - intros Hstack Hsize. unfold max_heap, stack_limit, estack_addr.
    unfold uintptr_range in Hstack.
    rewrite (to_uintptr_small _estack), (to_uintptr_small _Min_Stack_Size);
      [apply to_uintptr_small | |]; unfold uintptr_range; lia.
Qed.

Lemma sbrk_heap_end_within_limit_witness :
  __sbrk_heap_end
    (sbrk_calls 0x20000000 0x20002000 0x1000 [0x800; 0x900; -0x100; 0x7FFFFFFF]
                (initial_globals 0))
  <= max_heap 0x20002000 0x1000.
Proof.
  refine (proj1 (sbrk_heap_end_within_limit
                   0x20000000 0x20002000 0x1000 0
                   [0x800; 0x900; -0x100; 0x7FFFFFFF] _)).
  vm_compute. discriminate.
Defined.

(** C4, as stated, fails: after [_sbrk(0x800)] the heap end is [0x20000800];
    [_sbrk(-0x100)] passes the bounds check and lowers it to [0x20000700]. *)
Lemma sbrk_negative_increment_lowers_heap_end :
  let g := sbrk_calls 0x20000000 0x20002000 0x1000 [0x800]
                      (initial_globals 0) in
  sbrk_accepts 0x20000000 0x20002000 0x1000 (-0x100) g = true
  /\ __sbrk_heap_end g = 0x20000800
  /\ _sbrk 0x20000000 0x20002000 0x1000 (-0x100) g
     = (0x20000800, {| __sbrk_heap_end := 0x20000700; errno := 0 |})
  /\ __sbrk_heap_end (snd (_sbrk 0x20000000 0x20002000 0x1000 (-0x100) g))
     < __sbrk_heap_end g.
Proof. vm_compute. repeat split; reflexivity. Qed.

(** C4, amended.  For every non-negative increment that [_sbrk] accepts and
    whose sum with the heap end stays inside the 32-bit address space, the
    heap end after the call is greater than or equal to the heap end before
    it (as the bounds check saw it, and as it was stored). *)
Theorem sbrk_growth_never_lowers_heap_end
    (_end _estack _Min_Stack_Size incr : Z) (g : globals) :
  let prior := heap_end_at_check _end g in
  0 <= incr ->
  uintptr_range (prior + incr) ->
  sbrk_accepts _end _estack _Min_Stack_Size incr g = true ->
  let g' := snd (_sbrk _end _estack _Min_Stack_Size incr g) in
  __sbrk_heap_end g' = prior + incr
  /\ prior <= __sbrk_heap_end g'
  /\ (0 <= _end -> __sbrk_heap_end g <= __sbrk_heap_end g').
Proof.
  intros prior Hincr Hrange Hacc g'. subst g' prior.
  unfold sbrk_accepts in Hacc. apply negb_true_iff in Hacc.
  rewrite sbrk_unfold, Hacc. cbn.
  rewrite (ptr_add_no_wrap _ _ Hrange).
  repeat split; [lia |].
  intros Hend. unfold heap_end_at_check in *.
  destruct (Z.eqb_spec (__sbrk_heap_end g) NULL) as [Hz | Hnz].
  - rewrite Hz. unfold NULL. lia.
  - lia.
Qed.

Lemma sbrk_growth_witness :
  0x20000800 <=
  __sbrk_heap_end
    (snd (_sbrk 0x20000000 0x20002000 0x1000 0x100
                {| __sbrk_heap_end := 0x20000800; errno := 0 |})).
Proof.
  refine (proj1 (proj2 (sbrk_growth_never_lowers_heap_end
                   0x20000000 0x20002000 0x1000 0x100
                   {| __sbrk_heap_end := 0x20000800; errno := 0 |} _ _ _))).
  - vm_compute. discriminate.
  - vm_compute. split; [discriminate | reflexivity].
  - vm_compute. reflexivity.
Defined.

(** C5.  On a call that finds [__sbrk_heap_end] still [NULL], whatever the
    increment, the heap end is first set to the baseline [&_end]: the call
    behaves as the same call made with the heap end at [&_end], so the bounds
    check compares [&_end + incr] with the limit, a refused request leaves
    the heap end at [&_end], and a granted one returns [&_end] and advances
    from there. *)
Theorem sbrk_first_call_starts_at_baseline
    (_end _estack _Min_Stack_Size incr : Z) (g : globals) :
  __sbrk_heap_end g = NULL ->
  _sbrk _end _estack _Min_Stack_Size incr g =
    _sbrk _end _estack _Min_Stack_Size incr
          {| __sbrk_heap_end := _end; errno := errno g |}
  /\ _sbrk _end _estack _Min_Stack_Size incr g =
     if ptr_add _end incr >? max_heap _estack _Min_Stack_Size
     then (SBRK_FAILED, {| __sbrk_heap_end := _end; errno := ENOMEM |})
     else (_end, {| __sbrk_heap_end := ptr_add _end incr; errno := errno g |}).
Proof.
  intros Hnull. split.
  - unfold _sbrk. rewrite Hnull. cbn.
    destruct (_end =? NULL); reflexivity.
  - rewrite sbrk_unfold, (current_first_call _ _ Hnull). reflexivity.
Qed.

Lemma sbrk_first_call_witness :
  _sbrk 0x20000000 0x20002000 0x1000 0x800 (initial_globals 7)
  = (0x20000000, {| __sbrk_heap_end := 0x20000800; errno := 7 |}).
Proof.
  refine (eq_trans
            (proj2 (sbrk_first_call_starts_at_baseline
                      0x20000000 0x20002000 0x1000 0x800
                      (initial_globals 7) _)) _).
  - reflexivity.
  - vm_compute. reflexivity.
Defined.

End SysmemSpec.

(** * Further properties of [_sbrk] *)

Module SysmemMore.

Import Sysmem SysmemSpec.
Local Open Scope Z_scope.

Lemma ptr_add_ptr_add (p i j : Z) : ptr_add (ptr_add p i) j = ptr_add p (i + j).
Proof.
  unfold ptr_add, to_uintptr.
  rewrite Z.add_mod_idemp_l by (unfold ptr_modulus; lia).
  f_equal. lia.
Qed.

Lemma ptr_add_range (p i : Z) : uintptr_range (ptr_add p i).
Proof. apply to_uintptr_range. Qed.

Section LinkerSymbols.

Variables (_end _estack _Min_Stack_Size : Z).

Local Abbreviation sbrk := (_sbrk _end _estack _Min_Stack_Size).
Local Abbreviation limit := (max_heap _estack _Min_Stack_Size).
Local Abbreviation current := (heap_end_at_check _end).
Local Abbreviation accepts := (sbrk_accepts _end _estack _Min_Stack_Size).

(** A granted call, in terms of [sbrk_accepts]. *)
Lemma sbrk_granted (incr : Z) (g : globals) :
  accepts incr g = true ->
  sbrk incr g =
  (current g,
   {| __sbrk_heap_end := ptr_add (current g) incr; errno := errno g |}).
Proof.
  unfold sbrk_accepts. intros Hacc. apply negb_true_iff in Hacc.
  rewrite sbrk_unfold, Hacc. reflexivity.
Qed.

(** A refused call, in terms of [sbrk_accepts]. *)
Lemma sbrk_refused (incr : Z) (g : globals) :
  accepts incr g = false ->
  sbrk incr g =
  (SBRK_FAILED, {| __sbrk_heap_end := current g; errno := ENOMEM |}).
Proof.
  unfold sbrk_accepts. intros Hacc. apply negb_false_iff in Hacc.
  rewrite sbrk_unfold, Hacc. reflexivity.
Qed.

Lemma accepts_iff (incr : Z) (g : globals) :
  accepts incr g = true <-> ptr_add (current g) incr <= limit.
Proof.
  unfold sbrk_accepts. rewrite negb_true_iff, Z.gtb_ltb, Z.ltb_ge.
  reflexivity.
Qed.

(** The heap end a later check sees, once a value other than [NULL] has
    been stored. *)
Lemma current_stored (p e : Z) :
  p <> NULL -> current {| __sbrk_heap_end := p; errno := e |} = p.
Proof. intros Hp. now apply current_initialised. Qed.

(** The heap end the check works on survives being stored, [NULL] or not. *)
Lemma current_restored (g : globals) (e : Z) :
  current {| __sbrk_heap_end := current g; errno := e |} = current g.
Proof.
  unfold heap_end_at_check at 1. cbn.
  destruct (Z.eqb_spec (current g) NULL) as [Hz | Hnz]; [| reflexivity].
  unfold heap_end_at_check in *.
  destruct (Z.eqb_spec (__sbrk_heap_end g) NULL); congruence.
Qed.

(** From program start the stored heap end is an address, and so is the heap
    end the next check will see, when the baseline is one. *)
Lemma sbrk_preserves_range (incr : Z) (g : globals) :
  uintptr_range _end ->
  uintptr_range (__sbrk_heap_end g) ->
  uintptr_range (__sbrk_heap_end (snd (sbrk incr g))).
Proof.
  intros Hend Hg. rewrite sbrk_unfold.
  destruct (ptr_add (current g) incr >? limit); cbn.
  - unfold heap_end_at_check. destruct (__sbrk_heap_end g =? NULL); assumption.
  - apply ptr_add_range.
Qed.

Lemma sbrk_calls_preserve_range (incrs : list Z) :
  uintptr_range _end ->
  forall g, uintptr_range (__sbrk_heap_end g) ->
            uintptr_range
              (__sbrk_heap_end
                 (sbrk_calls _end _estack _Min_Stack_Size incrs g)).
Proof.
  intros Hend. induction incrs as [| incr rest IH]; intros g Hg; cbn.
  - exact Hg.
  - apply IH. now apply sbrk_preserves_range.
Qed.

Lemma current_le_limit (g : globals) :
  _end <= limit -> __sbrk_heap_end g <= limit -> current g <= limit.
Proof.
  intros Hend Hg. unfold heap_end_at_check.
  destruct (__sbrk_heap_end g =? NULL); assumption.
Qed.

Lemma current_range (g : globals) :
  uintptr_range _end -> uintptr_range (__sbrk_heap_end g) ->
  uintptr_range (current g).
Proof.
  intros Hend Hg. unfold heap_end_at_check.
  destruct (__sbrk_heap_end g =? NULL); assumption.
Qed.

End LinkerSymbols.

(** X1.  Two requests granted one after the other hand out adjacent
    regions: the second call returns the address the first region ends at,
    and the heap end finishes where one request for the sum of the two
    increments would have put it.  (The first request must not leave the
    heap end at address 0, which the next call takes for "not yet set".) *)
Theorem sbrk_consecutive_grants_are_adjacent
    (_end _estack _Min_Stack_Size i j : Z) (g : globals) :
  let prior := heap_end_at_check _end g in
  let g1 := snd (_sbrk _end _estack _Min_Stack_Size i g) in
  sbrk_accepts _end _estack _Min_Stack_Size i g = true ->
  ptr_add prior i <> NULL ->
  sbrk_accepts _end _estack _Min_Stack_Size j g1 = true ->
  fst (_sbrk _end _estack _Min_Stack_Size i g) = prior
  /\ fst (_sbrk _end _estack _Min_Stack_Size j g1) = ptr_add prior i
  /\ __sbrk_heap_end (snd (_sbrk _end _estack _Min_Stack_Size j g1))
     = ptr_add prior (i + j).
Proof.
  intros prior g1 Hi Hnz Hj. subst g1 prior.
  rewrite (sbrk_granted _ _ _ _ _ Hi) in *. cbn [fst snd] in *.
  rewrite (sbrk_granted _ _ _ _ _ Hj). cbn [fst snd __sbrk_heap_end].
  rewrite (current_stored _ _ _ Hnz), ptr_add_ptr_add.
  repeat split.
Qed.

Lemma sbrk_consecutive_grants_witness :
  fst (_sbrk 0x20000000 0x20002000 0x1000 0x300
         (snd (_sbrk 0x20000000 0x20002000 0x1000 0x800 (initial_globals 0))))
  = ptr_add 0x20000000 0x800.
Proof.
  refine (proj1 (proj2 (sbrk_consecutive_grants_are_adjacent
            0x20000000 0x20002000 0x1000 0x800 0x300 (initial_globals 0)
            _ _ _))).
  - vm_compute. reflexivity.
  - vm_compute. discriminate.
  - vm_compute. reflexivity.
Defined.

(** X2.  The bounds check is strict: a request that brings the heap end
    exactly onto the boundary is granted and leaves the heap end on the
    boundary, while the request one byte larger is refused (the boundary not
    being the last address of the address space). *)
Theorem sbrk_boundary_is_inclusive
    (_end _estack _Min_Stack_Size : Z) (g : globals) :
  let prior := heap_end_at_check _end g in
  let limit := max_heap _estack _Min_Stack_Size in
  uintptr_range prior ->
  prior <= limit ->
  limit + 1 < ptr_modulus ->
  _sbrk _end _estack _Min_Stack_Size (limit - prior) g
  = (prior, {| __sbrk_heap_end := limit; errno := errno g |})
  /\ _sbrk _end _estack _Min_Stack_Size (limit - prior + 1) g
     = (SBRK_FAILED, {| __sbrk_heap_end := prior; errno := ENOMEM |}).
Proof.
  intros prior limit Hrange Hle Hlast. subst prior limit.
  pose proof (max_heap_range _estack _Min_Stack_Size) as Hlim.
  unfold uintptr_range in *.
  split.
  - rewrite sbrk_granted.
    + rewrite ptr_add_no_wrap; [f_equal; f_equal; lia |].
      unfold uintptr_range. lia.
    + apply accepts_iff. rewrite ptr_add_no_wrap; unfold uintptr_range; lia.
  - apply sbrk_refused. apply not_true_is_false. intros Hacc.
    apply accepts_iff in Hacc.
    rewrite ptr_add_no_wrap in Hacc; unfold uintptr_range; lia.
Qed.

Lemma sbrk_boundary_witness :
  _sbrk 0x20000000 0x20002000 0x1000 (0x20001000 - 0x20000800)
        {| __sbrk_heap_end := 0x20000800; errno := 0 |}
  = (0x20000800, {| __sbrk_heap_end := 0x20001000; errno := 0 |}).
Proof.
  refine (proj1 (sbrk_boundary_is_inclusive
            0x20000000 0x20002000 0x1000
            {| __sbrk_heap_end := 0x20000800; errno := 0 |} _ _ _)).
  - vm_compute. split; [discriminate | reflexivity].
  - vm_compute. discriminate.
  - vm_compute. reflexivity.
Defined.

(** X3.  From program start, with the baseline an address at or below the
    boundary, [_sbrk(0)] always succeeds, whatever calls came before: it
    returns the current heap end, keeps the heap end there and does not
    touch [errno]. *)
Theorem sbrk_zero_reports_the_heap_end
    (_end _estack _Min_Stack_Size errno0 : Z) (incrs : list Z) :
  uintptr_range _end ->
  _end <= max_heap _estack _Min_Stack_Size ->
  let g := sbrk_calls _end _estack _Min_Stack_Size incrs
                      (initial_globals errno0) in
  _sbrk _end _estack _Min_Stack_Size 0 g
  = (heap_end_at_check _end g,
     {| __sbrk_heap_end := heap_end_at_check _end g; errno := errno g |}).
Proof.
  intros Hrange Hend g.
  assert (Hnull : uintptr_range NULL) by (vm_compute; split; congruence).
  assert (Hg : uintptr_range (heap_end_at_check _end g)).
  { apply current_range; [exact Hrange |].
    apply sbrk_calls_preserve_range; assumption. }
  assert (Hlim : heap_end_at_check _end g <= max_heap _estack _Min_Stack_Size).
  { apply current_le_limit; [exact Hend |].
    apply sbrk_calls_preserve_limit; [exact Hend |].
    apply (max_heap_range _estack _Min_Stack_Size). }
  assert (Hsum : ptr_add (heap_end_at_check _end g) 0
                 = heap_end_at_check _end g).
  { unfold ptr_add. rewrite Z.add_0_r. now apply to_uintptr_small. }
  rewrite sbrk_granted; [now rewrite Hsum |].
  apply accepts_iff. now rewrite Hsum.
Qed.

Lemma sbrk_zero_witness :
  fst (_sbrk 0x20000000 0x20002000 0x1000 0
         (sbrk_calls 0x20000000 0x20002000 0x1000 [0x800; 0x900; -0x100]
                     (initial_globals 0)))
  = 0x20000700.
Proof.
  refine (eq_trans (f_equal fst (sbrk_zero_reports_the_heap_end
            0x20000000 0x20002000 0x1000 0 [0x800; 0x900; -0x100] _ _)) _).
  - vm_compute. split; [discriminate | reflexivity].
  - vm_compute. discriminate.
  - vm_compute. reflexivity.
Defined.

(** X4.  A refused request is invisible to the calls that follow, [errno]
    apart: the next call returns the same pointer and leaves the same heap
    end as it would have without the refused one. *)
Theorem sbrk_refusal_does_not_affect_later_calls
    (_end _estack _Min_Stack_Size i j : Z) (g : globals) :
  sbrk_accepts _end _estack _Min_Stack_Size i g = false ->
  let g1 := snd (_sbrk _end _estack _Min_Stack_Size i g) in
  fst (_sbrk _end _estack _Min_Stack_Size j g1)
  = fst (_sbrk _end _estack _Min_Stack_Size j g)
  /\ __sbrk_heap_end (snd (_sbrk _end _estack _Min_Stack_Size j g1))
     = __sbrk_heap_end (snd (_sbrk _end _estack _Min_Stack_Size j g)).
Proof.
  intros Hi g1. subst g1.
  rewrite (sbrk_refused _ _ _ _ _ Hi). cbn [snd].
  rewrite !(sbrk_unfold _ _ _ j), current_restored.
  destruct (ptr_add (heap_end_at_check _end g) j
            >? max_heap _estack _Min_Stack_Size); split; reflexivity.
Qed.

Lemma sbrk_refusal_witness :
  fst (_sbrk 0x20000000 0x20002000 0x1000 0x100
         (snd (_sbrk 0x20000000 0x20002000 0x1000 0x2000
                 {| __sbrk_heap_end := 0x20000800; errno := 0 |})))
  = fst (_sbrk 0x20000000 0x20002000 0x1000 0x100
           {| __sbrk_heap_end := 0x20000800; errno := 0 |}).
Proof.
  refine (proj1 (sbrk_refusal_does_not_affect_later_calls
            0x20000000 0x20002000 0x1000 0x2000 0x100
            {| __sbrk_heap_end := 0x20000800; errno := 0 |} _)).
  vm_compute. reflexivity.
Defined.

(** X5.  [_sbrk] writes [errno] only when it refuses a request and never
    clears it: after any sequence of calls [errno] is [ENOMEM] if some call
    of the sequence was refused, and otherwise still holds the value it had
    before the sequence. *)
Theorem sbrk_errno_is_sticky
    (_end _estack _Min_Stack_Size : Z) (incrs : list Z) (g : globals) :
  errno (sbrk_calls _end _estack _Min_Stack_Size incrs g)
  = if sbrk_any_refused _end _estack _Min_Stack_Size incrs g
    then ENOMEM else errno g.
Proof.
  revert g. induction incrs as [| incr rest IH]; intros g.
  - reflexivity.
  - cbn [sbrk_calls sbrk_any_refused]. rewrite IH.
    destruct (sbrk_accepts _end _estack _Min_Stack_Size incr g) eqn:Hacc;
      cbn [negb orb].
    + rewrite (sbrk_granted _ _ _ _ _ Hacc). reflexivity.
    + rewrite (sbrk_refused _ _ _ _ _ Hacc). cbn [snd errno].
      destruct (sbrk_any_refused _ _ _ rest _); reflexivity.
Qed.

(** X6.  Address 0 doubles as "not yet set".  A request whose pointer sum
    is 0 is always granted, and it leaves [NULL] in [__sbrk_heap_end]; the
    call after it therefore starts again from the baseline [&_end], exactly
    like a first call. *)
Theorem sbrk_heap_end_at_zero_restarts_from_baseline
    (_end _estack _Min_Stack_Size incr : Z) (g : globals) :
  let prior := heap_end_at_check _end g in
  ptr_add prior incr = NULL ->
  let g1 := snd (_sbrk _end _estack _Min_Stack_Size incr g) in
  _sbrk _end _estack _Min_Stack_Size incr g
  = (prior, {| __sbrk_heap_end := NULL; errno := errno g |})
  /\ heap_end_at_check _end g1 = _end
  /\ (forall next,
        _sbrk _end _estack _Min_Stack_Size next g1
        = _sbrk _end _estack _Min_Stack_Size next
                {| __sbrk_heap_end := _end; errno := errno g |}).
Proof.
  intros prior Hzero g1. subst g1 prior.
  assert (Hacc : sbrk_accepts _end _estack _Min_Stack_Size incr g = true).
  { apply accepts_iff. rewrite Hzero.
    apply (max_heap_range _estack _Min_Stack_Size). }
  rewrite (sbrk_granted _ _ _ _ _ Hacc), Hzero. cbn [snd].
  repeat split.
  intros next. unfold _sbrk. cbn.
  destruct (_end =? NULL); reflexivity.
Qed.

Lemma sbrk_heap_end_at_zero_witness :
  _sbrk 0x20000000 0x20002000 0x1000 (-0x20000800)
        {| __sbrk_heap_end := 0x20000800; errno := 0 |}
  = (0x20000800, {| __sbrk_heap_end := NULL; errno := 0 |}).
Proof.
  refine (proj1 (sbrk_heap_end_at_zero_restarts_from_baseline
            0x20000000 0x20002000 0x1000 (-0x20000800)
            {| __sbrk_heap_end := 0x20000800; errno := 0 |} _)).
  vm_compute. reflexivity.
Defined.

(** X7.  Growing and then shrinking by the same amount is a round trip: when
    the heap end is an address within the boundary and a request for [incr]
    is granted (without landing on address 0), the request for [- incr] that
    follows is granted too, returns the end of the region just handed out,
    and puts the heap end back where it was. *)
Theorem sbrk_grow_then_shrink_round_trip
    (_end _estack _Min_Stack_Size incr : Z) (g : globals) :
  let prior := heap_end_at_check _end g in
  let g1 := snd (_sbrk _end _estack _Min_Stack_Size incr g) in
  uintptr_range prior ->
  prior <= max_heap _estack _Min_Stack_Size ->
  sbrk_accepts _end _estack _Min_Stack_Size incr g = true ->
  ptr_add prior incr <> NULL ->
  _sbrk _end _estack _Min_Stack_Size (- incr) g1
  = (ptr_add prior incr, {| __sbrk_heap_end := prior; errno := errno g |}).
Proof.
  intros prior g1 Hrange Hle Hacc Hnz. subst g1 prior.
  rewrite (sbrk_granted _ _ _ _ _ Hacc). cbn [snd].
  assert (Hback : ptr_add (ptr_add (heap_end_at_check _end g) incr) (- incr)
                  = heap_end_at_check _end g).
  { rewrite ptr_add_ptr_add, Z.add_opp_diag_r.
    unfold ptr_add. rewrite Z.add_0_r. now apply to_uintptr_small. }
  rewrite sbrk_granted; rewrite ?(current_stored _ _ _ Hnz).
  - cbn [errno]. now rewrite Hback.
  - apply accepts_iff. rewrite (current_stored _ _ _ Hnz), Hback. exact Hle.
Qed.

Lemma sbrk_grow_then_shrink_witness :
  _sbrk 0x20000000 0x20002000 0x1000 (- 0x800)
        (snd (_sbrk 0x20000000 0x20002000 0x1000 0x800 (initial_globals 0)))
  = (ptr_add 0x20000000 0x800,
     {| __sbrk_heap_end := 0x20000000; errno := 0 |}).
Proof.
  refine (sbrk_grow_then_shrink_round_trip
            0x20000000 0x20002000 0x1000 0x800 (initial_globals 0) _ _ _ _).
  - vm_compute. split; [discriminate | reflexivity].
  - vm_compute. discriminate.
  - vm_compute. reflexivity.
  - vm_compute. discriminate.
Defined.

(** X8.  With the baseline at or below the boundary, no call made after
    program start ever hands out memory of the reserved stack: a granted
    request returns an address at or below the boundary, and when the
    request is for [incr >= 0] bytes that do not run off the address space,
    the whole region, up to the returned address plus [incr], ends at or
    below the boundary. *)
Theorem sbrk_granted_region_is_below_the_stack
    (_end _estack _Min_Stack_Size errno0 incr : Z) (incrs : list Z) :
  _end <= max_heap _estack _Min_Stack_Size ->
  let g := sbrk_calls _end _estack _Min_Stack_Size incrs
                      (initial_globals errno0) in
  sbrk_accepts _end _estack _Min_Stack_Size incr g = true ->
  let p := fst (_sbrk _end _estack _Min_Stack_Size incr g) in
  p <= max_heap _estack _Min_Stack_Size
  /\ (0 <= incr -> uintptr_range (p + incr) ->
      p + incr <= max_heap _estack _Min_Stack_Size).
Proof.
  intros Hend g Hacc p. subst p.
  rewrite (sbrk_granted _ _ _ _ _ Hacc). cbn [fst]. split.
  - apply current_le_limit; [exact Hend |].
    apply sbrk_calls_preserve_limit; [exact Hend |].
    apply (max_heap_range _estack _Min_Stack_Size).
  - intros _ Hrange. apply accepts_iff in Hacc.
    now rewrite (ptr_add_no_wrap _ _ Hrange) in Hacc.
Qed.

Lemma sbrk_granted_region_witness :
  fst (_sbrk 0x20000000 0x20002000 0x1000 0x700
         (sbrk_calls 0x20000000 0x20002000 0x1000 [0x800; 0x900]
                     (initial_globals 0)))
  <= max_heap 0x20002000 0x1000.
Proof.
  refine (proj1 (sbrk_granted_region_is_below_the_stack
            0x20000000 0x20002000 0x1000 0 0x700 [0x800; 0x900] _ _)).
  - vm_compute. discriminate.
  - vm_compute. reflexivity.
Defined.

End SysmemMore.

(** * Properties of the acquisition loop *)

Module FirmwareSpec.

Import Firmware.
Local Open Scope N_scope.

(** ** The formatted line *)

Lemma digit_char_code (d : N) : d < 10 -> N_of_ascii (digit_char d) = 48 + d.
Proof. intros Hd. unfold digit_char. apply N_ascii_embedding. lia. Qed.

Lemma digit_char_not_NUL (d : N) :
  d < 10 -> Ascii.eqb (digit_char d) NUL = false.
Proof.
  intros Hd. apply Ascii.eqb_neq. intros Heq.
  apply (f_equal N_of_ascii) in Heq. rewrite digit_char_code in Heq by exact Hd.
  change (N_of_ascii NUL) with 0 in Heq. lia.
Qed.

Lemma mod10_lt (n : N) : n mod 10 < 10.
Proof. apply N.mod_lt. discriminate. Qed.

(** A number below [10 ^ k] is rendered with at most [k] digits. *)
Lemma utoa_rev_length (fuel : nat) :
  forall (k : nat) (n : N),
    (1 <= k)%nat -> n < 10 ^ N.of_nat k ->
    (List.length (utoa_rev fuel n) <= k)%nat.
Proof.
  induction fuel as [| fuel IH]; intros k n Hk Hn; cbn [utoa_rev List.length].
  - lia.
  - destruct (N.eqb_spec (n / 10) 0) as [Hq | Hq]; cbn [List.length]; [lia |].
    destruct k as [| [| k]]; [lia | |].
    + exfalso. apply Hq. apply N.div_small. exact Hn.
    + apply le_n_S. apply IH; [lia |].
      apply N.Div0.div_lt_upper_bound.
      rewrite <- N.pow_succ_r', <- Nat2N.inj_succ. exact Hn.
Qed.

(** With as many digits allowed as the number has bits, the digits produced
    denote the number: none is missing. *)
Lemma utoa_rev_value (fuel : nat) :
  forall n : N,
    n < 2 ^ N.of_nat fuel ->
    fold_right (fun c acc => 10 * acc + digit_value c) 0 (utoa_rev fuel n) = n.
Proof.
  induction fuel as [| fuel IH]; intros n Hn.
  - cbn in *. lia.
  - cbn [utoa_rev].
    assert (Hd : digit_value (digit_char (n mod 10)) = n mod 10).
    { unfold digit_value. rewrite digit_char_code by apply mod10_lt.
      now rewrite N.add_comm, N.add_sub. }
    pose proof (N.div_mod n 10 ltac:(discriminate)) as Hdm.
    destruct (N.eqb_spec (n / 10) 0) as [Hq | Hq]; cbn [fold_right].
    + rewrite Hd. lia.
    + rewrite IH, Hd; [lia |].
      rewrite Nat2N.inj_succ, N.pow_succ_r' in Hn.
      apply N.Div0.div_lt_upper_bound. lia.
Qed.

Lemma utoa_value (n : N) : decimal_value (utoa n) = n.
Proof.
  unfold decimal_value, utoa. rewrite <- fold_left_rev_right, rev_involutive.
  apply utoa_rev_value. rewrite Nat2N.inj_succ, N2Nat.id.
  destruct n as [| p]; [reflexivity |].
  apply N.log2_spec. reflexivity.
Qed.

Lemma utoa_rev_not_NUL (fuel : nat) :
  forall n : N, Forall not_NUL (utoa_rev fuel n).
Proof.
  induction fuel as [| fuel IH]; intros n; cbn [utoa_rev]; constructor.
  - apply digit_char_not_NUL, mod10_lt.
  - destruct (n / 10 =? 0); [constructor | apply IH].
Qed.

Lemma format_ADC_not_NUL (v : N) : Forall not_NUL (format_ADC v).
Proof.
  unfold format_ADC.
  apply Forall_app; split; [| apply Forall_app; split].
  - repeat constructor.
  - exact (Forall_rev (utoa_rev_not_NUL _ v)).
  - repeat constructor.
Qed.

Lemma utoa_length_uint32 (v : N) :
  uint32_range v -> (List.length (utoa v) <= 10)%nat.
Proof.
  unfold uint32_range, utoa. intros Hv. rewrite length_rev.
  apply utoa_rev_length; [lia |].
  apply (N.lt_trans _ _ _ Hv). reflexivity.
Qed.

(** ["ADC: "], at most ten digits, CR and LF: at most 17 characters. *)
Lemma format_ADC_length (v : N) :
  uint32_range v -> (List.length (format_ADC v) <= 17)%nat.
Proof.
  intros Hv. pose proof (utoa_length_uint32 v Hv) as Hlen.
  unfold format_ADC. rewrite !length_app.
  cbn [List.length list_ascii_of_string]. lia.
Qed.

Lemma snprintf_fits (size : nat) (text : list ascii) :
  (List.length text < size)%nat -> snprintf size text = text ++ [NUL].
Proof.
  intros Hlen. destruct size as [| room]; [lia |].
  cbn [snprintf]. rewrite firstn_all2 by lia. reflexivity.
Qed.

Lemma strlen_terminated (text : list ascii) :
  Forall not_NUL text -> strlen (text ++ [NUL]) = N.of_nat (List.length text).
Proof.
  induction 1 as [| c rest Hc _ IH].
  - reflexivity.
  - cbn [app strlen List.length]. rewrite Hc, IH, Nat2N.inj_succ. reflexivity.
Qed.

(** What [main] hands to [HAL_UART_Transmit] for a 32-bit sample: the buffer
    holds the whole text and its terminator, [strlen] is the length of the
    text, and the bytes sent are the text. *)
Lemma msg_holds_whole_text (v : N) :
  uint32_range v ->
  snprintf sizeof_msg (format_ADC v) = format_ADC v ++ [NUL]
  /\ strlen (snprintf sizeof_msg (format_ADC v))
     = N.of_nat (List.length (format_ADC v))
  /\ firstn (N.to_nat (strlen (snprintf sizeof_msg (format_ADC v))))
            (snprintf sizeof_msg (format_ADC v))
     = format_ADC v.
Proof.
  intros Hv. pose proof (format_ADC_length v Hv) as Hlen.
  assert (Hfit : snprintf sizeof_msg (format_ADC v) = format_ADC v ++ [NUL]).
  { apply snprintf_fits. unfold sizeof_msg. lia. }
  rewrite Hfit, (strlen_terminated _ (format_ADC_not_NUL v)), Nat2N.id.
  repeat split.
  rewrite firstn_app, firstn_all, Nat.sub_diag. cbn [firstn].
  apply app_nil_r.
Qed.

(** ** The board's bookkeeping *)

Lemma calls_record_calls (cs : list call) :
  forall b : board, calls (record_calls cs b) = calls b ++ cs.
Proof.
  unfold record_calls.
  induction cs as [| c cs IH]; intros b; cbn [fold_left].
  - symmetry. apply app_nil_r.
  - rewrite IH. cbn [record_call calls]. rewrite <- app_assoc. reflexivity.
Qed.

Lemma conversions_record_calls (cs : list call) :
  forall b : board, conversions (record_calls cs b) = conversions b.
Proof.
  unfold record_calls.
  induction cs as [| c cs IH]; intros b; cbn [fold_left]; [reflexivity |].
  now rewrite IH.
Qed.

Lemma uart_output_record_calls (cs : list call) (b : board) :
  uart_output (record_calls cs b) = uart_output b ++ flat_map transmitted cs.
Proof. unfold uart_output. rewrite calls_record_calls. apply flat_map_app. Qed.

(** ** Executions *)

(** [exec] sees a program only through [observe]. *)
Lemma exec_observe {R : Type} (t1 t2 : itree halE R) (n : nat) (b : board) :
  observe t1 = observe t2 -> exec n t1 b = exec n t2 b.
Proof.
  intros Hobs. destruct n as [| n]; cbn [exec]; [reflexivity |].
  rewrite Hobs. reflexivity.
Qed.

(** Inside [Error_Handler] no number of steps leads anywhere: no call is
    made and what follows the call of [Error_Handler] is never reached. *)
Lemma exec_Error_Handler_then {R : Type} (k : unit -> itree halE R) (n : nat) :
  forall b : board, exec n (ITree.bind Error_Handler k) b = (Running, b).
Proof.
  induction n as [| n IH]; intros b.
  - reflexivity.
  - exact (IH b).
Qed.

Lemma exec_Error_Handler (n : nat) :
  forall b : board, exec n Error_Handler b = (Running, b).
Proof.
  induction n as [| n IH]; intros b.
  - reflexivity.
  - exact (IH b).
Qed.

(** As a tree, [Error_Handler] is the silently diverging program, and so is
    anything that starts by calling it. *)
Lemma Error_Handler_spins : eq_itree eq Error_Handler (@ITree.spin halE unit).
Proof.
  unfold Error_Handler. pcofix CIH. pstep. red. cbn.
  constructor. right. exact CIH.
Qed.

Lemma Error_Handler_absorbs {R : Type} (k : unit -> itree halE R) :
  eq_itree eq (ITree.bind Error_Handler k) (@ITree.spin halE R).
Proof.
  pcofix CIH. pstep. red. cbn.
  constructor. right. exact CIH.
Qed.

(** The head of the sampling loop is the wait for a conversion. *)
Lemma sampling_loop_head :
  exists k,
    observe sampling_loop = VisF (HAL_ADC_PollForConversion HAL_MAX_DELAY) k.
Proof. eexists. cbn. reflexivity. Qed.

(** One pass through the loop when the wait reports [HAL_OK]: four calls
    and the jump back. *)
Lemma exec_sampling_loop_converted (n : nat) (b : board) (v : N)
    (rest : list (HAL_StatusTypeDef * N)) :
  conversions b = (HAL_OK, v) :: rest ->
  exec (5 + n) sampling_loop b =
  exec n sampling_loop
    (record_calls
       [Call (HAL_ADC_PollForConversion HAL_MAX_DELAY) HAL_OK;
        Call HAL_ADC_GetValue v;
        Call (HAL_UART_Transmit
                (snprintf sizeof_msg (format_ADC v))
                (strlen (snprintf sizeof_msg (format_ADC v)))
                HAL_MAX_DELAY) (uart_transmit_status b);
        Call (HAL_Delay 50) tt]
       (next_conversion v rest b)).
Proof.
  destruct b; cbn [conversions]; intros ->. reflexivity.
Qed.

(** One pass through the loop when the wait reports anything else: the wait
    and the jump back. *)
Lemma exec_sampling_loop_wait_failed (n : nat) (b : board)
    (st : HAL_StatusTypeDef) (dr : N) (rest : list (HAL_StatusTypeDef * N)) :
  conversions b = (st, dr) :: rest ->
  st <> HAL_OK ->
  exec (2 + n) sampling_loop b =
  exec n sampling_loop
    (record_calls [Call (HAL_ADC_PollForConversion HAL_MAX_DELAY) st]
                  (next_conversion dr rest b)).
Proof.
  destruct b; cbn [conversions]; intros -> Hst.
  destruct st; [contradiction | reflexivity ..].
Qed.

Lemma exec_sampling_loop_blocked (n : nat) (b : board) :
  conversions b = [] -> exec (S n) sampling_loop b = (Blocked, b).
Proof. destruct b; cbn [conversions]; intros ->. reflexivity. Qed.

Lemma exec_main_startup (n : nat) (b : board) :
  adc_init_status b = HAL_OK ->
  adc_config_status b = HAL_OK ->
  uart_init_status b = HAL_OK ->
  exec (8 + n) main b = exec n sampling_loop (record_calls (startup_calls b) b).
Proof.
  destruct b; cbn [adc_init_status adc_config_status uart_init_status].
  intros -> -> ->. cbn. apply exec_observe. reflexivity.
Qed.

Lemma exec_main_uart_init_failed (n : nat) (b : board) :
  adc_init_status b = HAL_OK ->
  adc_config_status b = HAL_OK ->
  uart_init_status b <> HAL_OK ->
  exec (7 + n) main b = (Running, record_calls (calls_until_uart_init b) b).
Proof.
  destruct b; cbn [adc_init_status adc_config_status uart_init_status].
  intros -> -> Hst.
  destruct uart_init_status0; [contradiction | | |]; cbn;
    match goal with
    | |- exec _ (ITree.subst ?k _) _ = _ =>
        rewrite (exec_observe _ (ITree.bind Error_Handler k)) by reflexivity
    end;
    apply exec_Error_Handler_then.
Qed.

(** The sampling loop on a script of completed conversions: every sample is
    read and sent, then the loop waits for a conversion that never comes. *)
Lemma exec_sampling_loop_completed (samples : list N) (extra : nat) :
  Forall uint32_range samples ->
  forall b : board,
    conversions b = completed samples ->
    fst (exec (5 * List.length samples + S extra) sampling_loop b) = Blocked
    /\ uart_output
         (snd (exec (5 * List.length samples + S extra) sampling_loop b))
       = uart_output b ++ List.map format_ADC samples.
Proof.
  induction 1 as [| v vs Hv _ IH]; intros b Hconv.
  - cbn [List.length Nat.mul Nat.add List.map].
    rewrite (exec_sampling_loop_blocked extra b Hconv). cbn [fst snd].
    split; [reflexivity | symmetry; apply app_nil_r].
  - replace (5 * List.length (v :: vs) + S extra)%nat
      with (5 + (5 * List.length vs + S extra))%nat by (cbn [List.length]; lia).
    rewrite (exec_sampling_loop_converted _ b v (completed vs) Hconv).
    match goal with |- context [record_calls ?cs ?b0] =>
      specialize (IH (record_calls cs b0)) end.
    destruct IH as [IHprog IHout].
    { rewrite conversions_record_calls. reflexivity. }
    split; [exact IHprog |].
    rewrite IHout, uart_output_record_calls.
    destruct (msg_holds_whole_text v Hv) as (_ & _ & Hsent).
    cbn [flat_map transmitted call_event app]. rewrite Hsent.
    change (uart_output (next_conversion v (completed vs) b))
      with (uart_output b).
    rewrite <- app_assoc. reflexivity.
Qed.

(** ** The claims *)

(** C6.  On a board whose start-up succeeds and whose conversions all
    complete, with 32-bit unsigned results [samples], [main] transmits
    exactly one line per sample, in the order of the samples: the prefix
    ["ADC: "], the decimal numeral of the sample (a digit string that reads
    back as the sample) and CR LF; having sent them all it waits for the next
    conversion.  In particular the results 100, 2048, 4095 give the lines
    ["ADC: 100"], ["ADC: 2048"], ["ADC: 4095"], each ended by CR LF. *)
Theorem acquisition_loop_emits_one_line_per_sample :
  (forall (b : board) (samples : list N) (extra : nat),
      adc_init_status b = HAL_OK ->
      adc_config_status b = HAL_OK ->
      uart_init_status b = HAL_OK ->
      conversions b = completed samples ->
      calls b = [] ->
      Forall uint32_range samples ->
      let run := exec (8 + (5 * List.length samples + S extra)) main b in
      fst run = Blocked
      /\ uart_output (snd run)
         = List.map
             (fun v => list_ascii_of_string "ADC: " ++ utoa v ++ [CR; LF])
             samples
      /\ Forall (fun v => decimal_value (utoa v) = v) samples)
  /\ uart_output
       (snd (exec 24 main
                  (board_at_reset HAL_OK (completed [100; 2048; 4095]))))
     = [line "ADC: 100"; line "ADC: 2048"; line "ADC: 4095"].
Proof.
  split; [| vm_compute; reflexivity].
  intros b samples extra Hadc Hcfg Huart Hconv Hcalls Hrange run. subst run.
  rewrite (exec_main_startup _ b Hadc Hcfg Huart).
  destruct (exec_sampling_loop_completed samples extra Hrange
              (record_calls (startup_calls b) b)) as [Hprog Hout].
  { rewrite conversions_record_calls. exact Hconv. }
  split; [exact Hprog |]. split.
  - rewrite Hout, uart_output_record_calls. unfold uart_output.
    rewrite Hcalls. reflexivity.
  - apply Forall_forall. intros v _. apply utoa_value.
Qed.

Lemma acquisition_loop_witness :
  uart_output
    (snd (exec (8 + (5 * 2 + 1)) main
               (board_at_reset HAL_OK (completed [0; 4294967295]))))
  = [line "ADC: 0"; line "ADC: 4294967295"].
Proof.
  refine (eq_trans
            (proj1 (proj2 (proj1 acquisition_loop_emits_one_line_per_sample
               (board_at_reset HAL_OK (completed [0; 4294967295]))
               [0; 4294967295] 0%nat _ _ _ _ _ _))) _);
    try reflexivity.
  repeat constructor.
Defined.

(** C7.  When the wait for a conversion reports anything but [HAL_OK], the
    pass through the loop body consists of that wait alone (no
    [HAL_ADC_GetValue], no [HAL_UART_Transmit], no [HAL_Delay]: the body
    returns at once and nothing is added to the serial output), and the loop
    is back at its head, whose first action is the next wait. *)
Theorem failed_wait_skips_the_iteration
    (b : board) (st : HAL_StatusTypeDef) (dr : N)
    (rest : list (HAL_StatusTypeDef * N)) (n : nat) :
  conversions b = (st, dr) :: rest ->
  st <> HAL_OK ->
  let b' := record_calls [Call (HAL_ADC_PollForConversion HAL_MAX_DELAY) st]
                         (next_conversion dr rest b) in
  exec (2 + n) sampling_body b = (Returned tt, b')
  /\ exec (2 + n) sampling_loop b = exec n sampling_loop b'
  /\ calls b' = calls b ++ [Call (HAL_ADC_PollForConversion HAL_MAX_DELAY) st]
  /\ uart_output b' = uart_output b
  /\ (exists k,
        observe sampling_loop
        = VisF (HAL_ADC_PollForConversion HAL_MAX_DELAY) k).
Proof.
  intros Hconv Hst b'. subst b'. repeat split.
  - destruct b; cbn [conversions] in Hconv; subst.
    destruct st; [contradiction | reflexivity ..].
  - exact (exec_sampling_loop_wait_failed n b st dr rest Hconv Hst).
  - rewrite uart_output_record_calls. cbn. apply app_nil_r.
  - exact sampling_loop_head.
Qed.

Lemma failed_wait_witness :
  exec 2 sampling_body (board_at_reset HAL_OK [(HAL_TIMEOUT, 7); (HAL_OK, 9)])
  = (Returned tt,
     record_calls [Call (HAL_ADC_PollForConversion HAL_MAX_DELAY) HAL_TIMEOUT]
       (next_conversion 7 [(HAL_OK, 9)]
          (board_at_reset HAL_OK [(HAL_TIMEOUT, 7); (HAL_OK, 9)]))).
Proof.
  refine (proj1 (failed_wait_skips_the_iteration
                   (board_at_reset HAL_OK [(HAL_TIMEOUT, 7); (HAL_OK, 9)])
                   HAL_TIMEOUT 7 [(HAL_OK, 9)] 0%nat _ _)).
  - reflexivity.
  - discriminate.
Defined.

(** C8.  When [HAL_UART_Init] reports a failure, [MX_USART2_UART_Init]
    continues as [Error_Handler]; [Error_Handler] is the silently diverging
    program: it makes no call and never returns, however many steps it is
    given; so [main], after its seven start-up calls, runs on for ever
    without a further call, and no run of [main], of any length, contains a
    call of [HAL_ADC_GetValue] that the board had not seen before. *)
Theorem uart_init_failure_halts_before_any_read (b : board) :
  adc_init_status b = HAL_OK ->
  adc_config_status b = HAL_OK ->
  uart_init_status b <> HAL_OK ->
  (forall n,
      exec (2 + n) MX_USART2_UART_Init b
      = exec n Error_Handler
             (record_calls [Call (HAL_RCC_CLK_ENABLE USART2) tt;
                            Call (HAL_UART_Init huart2_Init)
                                 (uart_init_status b)] b))
  /\ eq_itree eq Error_Handler (@ITree.spin halE unit)
  /\ (forall n b0, exec n Error_Handler b0 = (Running, b0))
  /\ (forall n,
        exec (7 + n) main b
        = (Running, record_calls (calls_until_uart_init b) b))
  /\ (forall n,
        existsb is_conversion_read (calls (snd (exec n main b)))
        = existsb is_conversion_read (calls b)).
Proof.
  intros Hadc Hcfg Huart.
  split; [| split; [| split; [| split]]].
  - intros n. destruct b; cbn [uart_init_status] in *.
    destruct uart_init_status0; [contradiction | | |]; cbn;
      apply exec_observe; reflexivity.
  - exact Error_Handler_spins.
  - intros n b0. apply exec_Error_Handler.
  - intros n. now apply exec_main_uart_init_failed.
  - intros n.
    destruct n as [| [| [| [| [| [| [| n]]]]]]].
    8: { change (S (S (S (S (S (S (S n)))))))%nat with (7 + n)%nat.
         rewrite (exec_main_uart_init_failed n b Hadc Hcfg Huart).
         cbn [snd]. rewrite calls_record_calls, existsb_app. cbn.
         apply orb_false_r. }
    all: destruct b;
      cbn [adc_init_status adc_config_status uart_init_status] in *; subst;
      cbn; rewrite ?existsb_app; cbn; rewrite ?orb_false_r; reflexivity.
Qed.

Lemma uart_init_failure_witness :
  exec 1000 main
       (mkBoard HAL_OK HAL_OK HAL_OK HAL_ERROR HAL_OK HAL_OK
                (completed [100; 2048; 4095]) 0 [])
  = (Running,
     record_calls
       (calls_until_uart_init
          (mkBoard HAL_OK HAL_OK HAL_OK HAL_ERROR HAL_OK HAL_OK
                   (completed [100; 2048; 4095]) 0 []))
       (mkBoard HAL_OK HAL_OK HAL_OK HAL_ERROR HAL_OK HAL_OK
                (completed [100; 2048; 4095]) 0 [])).
Proof.
  refine (proj1 (proj2 (proj2 (proj2
            (uart_init_failure_halts_before_any_read
               (mkBoard HAL_OK HAL_OK HAL_OK HAL_ERROR HAL_OK HAL_OK
                        (completed [100; 2048; 4095]) 0 []) _ _ _))))
            993%nat).
  - reflexivity.
  - reflexivity.
  - discriminate.
Defined.

(** C9.  For every 32-bit unsigned sample the text ["ADC: "], decimal value,
    CR LF has at most 17 characters, so with its terminating NUL it fits the
    20-byte buffer: [snprintf] stores the whole text, [strlen] is the length
    of the text, and the bytes handed to the serial line are the text, not a
    truncation of it. *)
Theorem adc_line_fits_the_buffer (v : N) :
  uint32_range v ->
  (List.length (format_ADC v) + 1 <= sizeof_msg)%nat
  /\ (List.length (format_ADC v) <= 17)%nat
  /\ snprintf sizeof_msg (format_ADC v) = format_ADC v ++ [NUL]
  /\ strlen (snprintf sizeof_msg (format_ADC v))
     = N.of_nat (List.length (format_ADC v))
  /\ firstn (N.to_nat (strlen (snprintf sizeof_msg (format_ADC v))))
            (snprintf sizeof_msg (format_ADC v))
     = format_ADC v.
Proof.
  intros Hv. pose proof (format_ADC_length v Hv) as Hlen.
  destruct (msg_holds_whole_text v Hv) as (Hbuf & Hstrlen & Hsent).
  unfold sizeof_msg. repeat split; try assumption; lia.
Qed.

Lemma adc_line_fits_witness :
  snprintf sizeof_msg (format_ADC 4294967295) = format_ADC 4294967295 ++ [NUL].
Proof.
  refine (proj1 (proj2 (proj2 (adc_line_fits_the_buffer 4294967295 _)))).
  reflexivity.
Defined.

(** C10.  [main] does not look at what [HAL_ADC_Start] returns: when the
    converter and the serial channel have initialised, then whatever status
    starting the conversion reports, a failure included, [main] is in the
    sampling loop after its eight start-up calls, and its next call is the
    wait for a conversion. *)
Theorem adc_start_failure_still_enters_the_loop (b : board) :
  adc_init_status b = HAL_OK ->
  adc_config_status b = HAL_OK ->
  uart_init_status b = HAL_OK ->
  adc_start_status b <> HAL_OK ->
  (forall n,
      exec (8 + n) main b
      = exec n sampling_loop (record_calls (startup_calls b) b))
  /\ In (Call HAL_ADC_Start (adc_start_status b)) (startup_calls b)
  /\ (forall st dr rest,
        conversions b = (st, dr) :: rest ->
        calls (snd (exec 9 main b))
        = calls b ++ startup_calls b
          ++ [Call (HAL_ADC_PollForConversion HAL_MAX_DELAY) st]).
Proof.
  intros Hadc Hcfg Huart _. repeat split.
  - intros n. now apply exec_main_startup.
  - unfold startup_calls. cbn. intuition.
  - intros st dr rest Hconv.
    change 9%nat with (8 + 1)%nat.
    rewrite (exec_main_startup 1 b Hadc Hcfg Huart).
    destruct b; cbn [conversions] in Hconv; subst. cbn.
    rewrite <- !app_assoc. reflexivity.
Qed.

Lemma adc_start_failure_witness :
  exec (8 + 5) main
       (mkBoard HAL_OK HAL_OK HAL_OK HAL_OK HAL_ERROR HAL_OK
                (completed [2048]) 0 [])
  = exec 5 sampling_loop
      (record_calls
         (startup_calls
            (mkBoard HAL_OK HAL_OK HAL_OK HAL_OK HAL_ERROR HAL_OK
                     (completed [2048]) 0 []))
         (mkBoard HAL_OK HAL_OK HAL_OK HAL_OK HAL_ERROR HAL_OK
                  (completed [2048]) 0 [])).
Proof.
  refine (proj1 (adc_start_failure_still_enters_the_loop
            (mkBoard HAL_OK HAL_OK HAL_OK HAL_OK HAL_ERROR HAL_OK
                     (completed [2048]) 0 []) _ _ _ _) 5%nat).
  - reflexivity.
  - reflexivity.
  - reflexivity.
  - discriminate.
Defined.

End FirmwareSpec.

(** * Further properties of the acquisition loop *)

Module FirmwareMore.

Import Firmware FirmwareSpec.
Local Open Scope N_scope.

(** ** Executions in general *)

Lemma respond_calls {T : Type} (e : halE T) (b b' : board) (x : T) :
  respond e b = Some (x, b') -> calls b' = calls b.
Proof.
  destruct e; cbn; try (intros [= _ <-]; reflexivity).
  destruct (conversions b) as [| [st dr] rest]; [discriminate |].
  intros [= _ <-]. reflexivity.
Qed.

(** A run only ever adds calls to the record. *)
Lemma exec_calls_grow {R : Type} (n : nat) :
  forall (t : itree halE R) (b : board),
    exists cs, calls (snd (exec n t b)) = calls b ++ cs.
Proof.
  induction n as [| n IH]; intros t b.
  - exists []. symmetry. apply app_nil_r.
  - cbn [exec]. destruct (observe t) as [r | t' | T e k].
    + exists []. symmetry. apply app_nil_r.
    + apply IH.
    + destruct (respond e b) as [[x b'] |] eqn:Hresp.
      * destruct (IH (k x) (record_call (Call e x) b')) as [cs Hcs].
        exists (Call e x :: cs). rewrite Hcs. cbn [record_call calls].
        rewrite (respond_calls _ _ _ _ Hresp), <- app_assoc. reflexivity.
      * exists []. symmetry. apply app_nil_r.
Qed.

(** A longer run starts with the calls of a shorter one. *)
Lemma exec_more_steps {R : Type} (n m : nat) :
  forall (t : itree halE R) (b : board),
    exists cs,
      calls (snd (exec (n + m) t b)) = calls (snd (exec n t b)) ++ cs.
Proof.
  induction n as [| n IH]; intros t b.
  - apply exec_calls_grow.
  - cbn [exec Nat.add]. destruct (observe t) as [r | t' | T e k].
    + exists []. symmetry. apply app_nil_r.
    + apply IH.
    + destruct (respond e b) as [[x b'] |].
      * apply IH.
      * exists []. symmetry. apply app_nil_r.
Qed.

(** What starts by running [t] and goes on with programs that never return
    never returns. *)
Lemma exec_bind_never_returns {A B : Type} (k : A -> itree halE B) :
  (forall r n b s, fst (exec n (k r) b) <> Returned s) ->
  forall n (t : itree halE A) b s,
    fst (exec n (ITree.bind t k) b) <> Returned s.
Proof.
  intros Hk. induction n as [| n IH]; intros t b s.
  - discriminate.
  - cbn [exec]. rewrite observe_bind.
    destruct (observe t) as [r | t' | T e h].
    + exact (Hk r (S n) b s).
    + exact (IH t' b s).
    + cbn. destruct (respond e b) as [[x b'] |]; [apply IH | discriminate].
Qed.

(** A [while (1)] without [break] or [return] never returns. *)
Lemma exec_forever_never_returns {A B : Type} (body : itree halE A) :
  forall n b (s : B), fst (exec n (ITree.forever body) b) <> Returned s.
Proof.
  assert (Haux : forall n (t : itree halE A) b (s : B),
             fst (exec n (ITree.bind t (fun _ => Tau (ITree.forever body))) b)
             <> Returned s).
  { induction n as [| n IH]; intros t b s; [discriminate |].
    cbn [exec]. rewrite observe_bind.
    destruct (observe t) as [r | t' | T e h].
    - cbn.
      rewrite (exec_observe _ _ n b
                 (observing_observe (unfold_forever_ body))).
      apply IH.
    - exact (IH t' b s).
    - cbn. destruct (respond e b) as [[x b'] |]; [apply IH | discriminate]. }
  intros n b s.
  rewrite (exec_observe _ _ n b (observing_observe (unfold_forever_ body))).
  apply Haux.
Qed.

(** What starts by running a program that hangs without a call hangs
    without a call. *)
Lemma exec_hangs_bind {A B : Type} (k : A -> itree halE B) (n : nat) :
  forall t : itree halE A,
    (forall m b, exec m t b = (Running, b)) ->
    forall b, exec n (ITree.bind t k) b = (Running, b).
Proof.
  induction n as [| n IH]; intros t Ht b; [reflexivity |].
  cbn [exec]. rewrite observe_bind.
  pose proof (Ht 1%nat b) as H1. cbn [exec] in H1.
  destruct (observe t) as [r | t' | T e h] eqn:Hobs.
  - discriminate.
  - cbn. apply IH. intros m b0.
    specialize (Ht (S m) b0). cbn [exec] in Ht. now rewrite Hobs in Ht.
  - exfalso. destruct (respond e b) as [[x b'] |] eqn:Hresp; [| discriminate].
    injection H1 as H1. apply (f_equal calls) in H1.
    cbn [record_call calls] in H1.
    rewrite (respond_calls _ _ _ _ Hresp) in H1.
    apply (f_equal (@List.length call)) in H1.
    rewrite length_app in H1. cbn in H1. lia.
Qed.

(** ** The board across a pass through the loop *)

Lemma uart_transmit_status_record_calls (cs : list call) :
  forall b : board,
    uart_transmit_status (record_calls cs b) = uart_transmit_status b.
Proof.
  unfold record_calls.
  induction cs as [| c cs IH]; intros b; cbn [fold_left]; [reflexivity |].
  now rewrite IH.
Qed.

Lemma status_eqb_OK (st : HAL_StatusTypeDef) :
  status_eqb st HAL_OK = true <-> st = HAL_OK.
Proof. destruct st; cbn; split; congruence. Qed.

(** The loop on any script of waits: every wait is served by one pass, then
    the loop blocks in the wait that never completes. *)
Lemma exec_sampling_loop_script (script : list (HAL_StatusTypeDef * N))
    (extra : nat) :
  forall b : board,
    conversions b = script ->
    fst (exec (loop_steps script + S extra) sampling_loop b) = Blocked
    /\ calls (snd (exec (loop_steps script + S extra) sampling_loop b))
       = calls b ++ flat_map (pass_calls (uart_transmit_status b)) script.
Proof.
  induction script as [| [st dr] rest IH]; intros b Hconv.
  - change (loop_steps [] + S extra)%nat with (S extra). cbn [flat_map].
    rewrite (exec_sampling_loop_blocked extra b Hconv). cbn [fst snd].
    split; [reflexivity | symmetry; apply app_nil_r].
  - change (loop_steps ((st, dr) :: rest))
      with (pass_steps (st, dr) + loop_steps rest)%nat.
    cbn [flat_map]. rewrite <- Nat.add_assoc.
    unfold pass_steps, pass_calls. cbn [fst].
    destruct (status_eqb st HAL_OK) eqn:Hst.
    + apply status_eqb_OK in Hst. subst st.
      rewrite (exec_sampling_loop_converted _ b dr rest Hconv).
      match goal with |- context [record_calls ?cs ?b0] =>
        destruct (IH (record_calls cs b0)) as [IHprog IHcalls]
      end.
      { rewrite conversions_record_calls. reflexivity. }
      split; [exact IHprog |].
      rewrite IHcalls, calls_record_calls, uart_transmit_status_record_calls.
      cbn [next_conversion calls uart_transmit_status].
      rewrite <- app_assoc. reflexivity.
    + assert (Hne : st <> HAL_OK).
      { intros ->. discriminate. }
      rewrite (exec_sampling_loop_wait_failed _ b st dr rest Hconv Hne).
      match goal with |- context [record_calls ?cs ?b0] =>
        destruct (IH (record_calls cs b0)) as [IHprog IHcalls]
      end.
      { rewrite conversions_record_calls. reflexivity. }
      split; [exact IHprog |].
      rewrite IHcalls, calls_record_calls, uart_transmit_status_record_calls.
      cbn [next_conversion calls uart_transmit_status].
      rewrite <- app_assoc. reflexivity.
Qed.

(** ** [main] when the converter does not initialise *)

Lemma exec_main_adc_init_failed (n : nat) (b : board) :
  adc_init_status b <> HAL_OK ->
  exec (4 + n) main b
  = (Running,
     record_calls [Call HAL_Init (hal_init_status b);
                   Call (HAL_RCC_CLK_ENABLE GPIOA) tt;
                   Call (HAL_RCC_CLK_ENABLE ADC1) tt;
                   Call (HAL_ADC_Init hadc1_Init) (adc_init_status b)] b).
Proof.
  destruct b; cbn [adc_init_status hal_init_status]. intros Hst.
  destruct adc_init_status0; [contradiction | | |]; cbn;
    match goal with
    | |- exec _ (ITree.subst ?k (ITree.subst ?k' (Ret ?st))) _ = _ =>
        rewrite (exec_observe _ (ITree.bind (k' st) k)) by reflexivity
    end;
    cbv beta; cbn [negb status_eqb];
    apply exec_hangs_bind; intros m b0; apply exec_Error_Handler_then.
Qed.

Lemma exec_main_adc_config_failed (n : nat) (b : board) :
  adc_init_status b = HAL_OK ->
  adc_config_status b <> HAL_OK ->
  exec (5 + n) main b
  = (Running,
     record_calls [Call HAL_Init (hal_init_status b);
                   Call (HAL_RCC_CLK_ENABLE GPIOA) tt;
                   Call (HAL_RCC_CLK_ENABLE ADC1) tt;
                   Call (HAL_ADC_Init hadc1_Init) HAL_OK;
                   Call (HAL_ADC_ConfigChannel sConfig)
                        (adc_config_status b)] b).
Proof.
  destruct b; cbn [adc_init_status adc_config_status hal_init_status].
  intros -> Hst.
  destruct adc_config_status0; [contradiction | | |]; cbn;
    match goal with
    | |- exec _ (ITree.subst ?k _) _ = _ =>
        rewrite (exec_observe _ (ITree.bind Error_Handler k)) by reflexivity
    end;
    apply exec_Error_Handler_then.
Qed.

(** ** All the calls of [main] *)

(** Given [main_steps] steps or more, [main] has made exactly the calls of
    [main_calls]. *)
Lemma exec_main_all_calls (b : board) (extra : nat) :
  calls (snd (exec (main_steps b + extra) main b)) = calls b ++ main_calls b.
Proof.
  unfold main_steps, main_calls.
  destruct (status_eqb (adc_init_status b) HAL_OK) eqn:Hadc; cbn [negb].
  2: { assert (Hne : adc_init_status b <> HAL_OK).
       { intros H. apply status_eqb_OK in H. congruence. }
       rewrite (exec_main_adc_init_failed extra b Hne). cbn [snd].
       rewrite calls_record_calls, app_nil_r. reflexivity. }
  apply status_eqb_OK in Hadc.
  destruct (status_eqb (adc_config_status b) HAL_OK) eqn:Hcfg; cbn [negb].
  2: { assert (Hne : adc_config_status b <> HAL_OK).
       { intros H. apply status_eqb_OK in H. congruence. }
       rewrite (exec_main_adc_config_failed extra b Hadc Hne). cbn [snd].
       rewrite calls_record_calls, Hadc. reflexivity. }
  apply status_eqb_OK in Hcfg.
  destruct (status_eqb (uart_init_status b) HAL_OK) eqn:Huart; cbn [negb].
  2: { assert (Hne : uart_init_status b <> HAL_OK).
       { intros H. apply status_eqb_OK in H. congruence. }
       rewrite (exec_main_uart_init_failed extra b Hadc Hcfg Hne). cbn [snd].
       rewrite calls_record_calls, Hadc, Hcfg. reflexivity. }
  apply status_eqb_OK in Huart.
  replace (8 + (loop_steps (conversions b) + 1) + extra)%nat
    with (8 + (loop_steps (conversions b) + S extra))%nat by lia.
  rewrite (exec_main_startup _ b Hadc Hcfg Huart).
  destruct (exec_sampling_loop_script (conversions b) extra
              (record_calls (startup_calls b) b)) as [_ Hcalls].
  { apply conversions_record_calls. }
  rewrite Hcalls, calls_record_calls, uart_transmit_status_record_calls.
  rewrite Hadc, Hcfg, Huart, <- app_assoc. reflexivity.
Qed.

(** When every run of [k] steps or more has made the calls [final], every
    run has made an initial part of them. *)
Lemma calls_so_far {R : Type} (t : itree halE R) (b : board) (k : nat)
    (final : list call) :
  (forall extra, calls (snd (exec (k + extra) t b)) = final) ->
  forall n, exists rest, calls (snd (exec n t b)) ++ rest = final.
Proof.
  intros Hfinal n. destruct (Nat.le_gt_cases n k) as [Hle | Hgt].
  - destruct (exec_more_steps n (k - n) t b) as [cs Hcs].
    exists cs. rewrite <- Hcs, <- (Hfinal 0%nat). do 3 f_equal. lia.
  - exists []. rewrite app_nil_r, <- (Hfinal (n - k)%nat). do 3 f_equal. lia.
Qed.

(** However long [main] has run, the calls it has made so far are an initial
    part of [main_calls]. *)
Lemma exec_main_calls_so_far (b : board) (n : nat) :
  exists rest,
    calls (snd (exec n main b)) ++ rest = calls b ++ main_calls b.
Proof.
  apply (calls_so_far main b (main_steps b)), exec_main_all_calls.
Qed.

(** ** What reaches the serial line *)

Lemma transmitted_pass (tx : HAL_StatusTypeDef) (st : HAL_StatusTypeDef)
    (dr : N) :
  uint32_range dr \/ st <> HAL_OK ->
  flat_map transmitted (pass_calls tx (st, dr))
  = List.map format_ADC (converted [(st, dr)]).
Proof.
  intros Hdr. unfold pass_calls, converted. cbn [flat_map fst snd].
  destruct (status_eqb st HAL_OK) eqn:Hst; [| reflexivity].
  destruct Hdr as [Hdr | Hne].
  - destruct (msg_holds_whole_text dr Hdr) as (_ & _ & Hsent).
    cbn [flat_map transmitted call_event app List.map]. now rewrite Hsent.
  - apply status_eqb_OK in Hst. contradiction.
Qed.

Lemma converted_cons (st : HAL_StatusTypeDef) (dr : N)
    (rest : list (HAL_StatusTypeDef * N)) :
  converted ((st, dr) :: rest) = converted [(st, dr)] ++ converted rest.
Proof.
  unfold converted. cbn [flat_map fst snd]. now rewrite app_nil_r.
Qed.

Lemma transmitted_passes (tx : HAL_StatusTypeDef)
    (script : list (HAL_StatusTypeDef * N)) :
  Forall uint32_range (converted script) ->
  flat_map transmitted (flat_map (pass_calls tx) script)
  = List.map format_ADC (converted script).
Proof.
  induction script as [| [st dr] rest IH]; intros Hrange; [reflexivity |].
  rewrite converted_cons in *. apply Forall_app in Hrange as [Hdr Hrest].
  cbn [flat_map]. rewrite flat_map_app, List.map_app, (IH Hrest).
  f_equal. apply transmitted_pass.
  unfold converted in Hdr. cbn [flat_map fst snd] in Hdr.
  destruct (status_eqb st HAL_OK) eqn:Hst.
  - left. now inversion Hdr.
  - right. intros ->. discriminate.
Qed.

(** ** Reads and waits *)

Lemma reads_follow_waits_app_l (l r : list call) :
  forall after_wait,
    reads_follow_waits after_wait (l ++ r) = true ->
    reads_follow_waits after_wait l = true.
Proof.
  induction l as [| c l IH]; intros after_wait; [reflexivity |].
  cbn [app reads_follow_waits]. rewrite !andb_true_iff.
  intros [Hc Hrest]. split; [exact Hc | now apply IH].
Qed.

Lemma reads_follow_waits_passes (tx : HAL_StatusTypeDef)
    (script : list (HAL_StatusTypeDef * N)) :
  forall after_wait,
    reads_follow_waits after_wait (flat_map (pass_calls tx) script) = true.
Proof.
  induction script as [| [st dr] rest IH]; intros after_wait; [reflexivity |].
  cbn [flat_map]. destruct st; cbn; apply IH.
Qed.

Lemma reads_follow_waits_main_calls (b : board) :
  reads_follow_waits false (main_calls b) = true.
Proof.
  unfold main_calls.
  destruct (adc_init_status b), (adc_config_status b), (uart_init_status b);
    cbn; try reflexivity.
  apply reads_follow_waits_passes.
Qed.

(** ** The digits *)

Lemma digit_char_is_digit (d : N) : d < 10 -> is_digit (digit_char d) = true.
Proof.
  intros Hd. unfold is_digit. rewrite (digit_char_code d Hd).
  apply andb_true_iff. split; apply N.leb_le; lia.
Qed.

Lemma utoa_rev_digits (fuel : nat) :
  forall n : N, forallb is_digit (utoa_rev fuel n) = true.
Proof.
  induction fuel as [| fuel IH]; intros n; [reflexivity |].
  cbn [utoa_rev forallb]. rewrite (digit_char_is_digit _ (mod10_lt n)).
  destruct (n / 10 =? 0); [reflexivity | apply IH].
Qed.

Lemma utoa_not_empty (n : N) : (1 <= List.length (utoa n))%nat.
Proof.
  unfold utoa. rewrite length_rev. cbn [utoa_rev List.length]. lia.
Qed.

Lemma format_ADC_injective (v1 v2 : N) :
  format_ADC v1 = format_ADC v2 -> v1 = v2.
Proof.
  unfold format_ADC. intros Heq.
  apply app_inv_head, app_inv_tail in Heq.
  rewrite <- (utoa_value v1), <- (utoa_value v2). now f_equal.
Qed.

(** ** The properties *)

(** X9.  When [HAL_ADC_Init] reports a failure, [main] makes no call after
    it: from the fourth step on it runs for ever inside [Error_Handler],
    the record of calls frozen at [HAL_Init], the two clock enables and the
    failing [HAL_ADC_Init]; the channel is never configured and the serial
    channel never initialised.  A shorter run has made an initial part of
    these four calls. *)
Theorem adc_init_failure_halts_main (b : board) :
  adc_init_status b <> HAL_OK ->
  let made := [Call HAL_Init (hal_init_status b);
               Call (HAL_RCC_CLK_ENABLE GPIOA) tt;
               Call (HAL_RCC_CLK_ENABLE ADC1) tt;
               Call (HAL_ADC_Init hadc1_Init) (adc_init_status b)] in
  (forall n, exec (4 + n) main b = (Running, record_calls made b))
  /\ (forall n, exists rest,
         calls (snd (exec n main b)) ++ rest = calls b ++ made).
Proof.
  intros Hst made.
  assert (Hhalt : forall n, exec (4 + n) main b
                            = (Running, record_calls made b)).
  { intros n. now apply exec_main_adc_init_failed. }
  split; [exact Hhalt |].
  apply (calls_so_far main b 4). intros extra.
  rewrite Hhalt. cbn [snd]. apply calls_record_calls.
Qed.

Lemma adc_init_failure_witness :
  exec 1000 main
       (mkBoard HAL_OK HAL_TIMEOUT HAL_OK HAL_OK HAL_OK HAL_OK
                (completed [100; 2048]) 0 [])
  = (Running,
     record_calls
       [Call HAL_Init HAL_OK;
        Call (HAL_RCC_CLK_ENABLE GPIOA) tt;
        Call (HAL_RCC_CLK_ENABLE ADC1) tt;
        Call (HAL_ADC_Init hadc1_Init) HAL_TIMEOUT]
       (mkBoard HAL_OK HAL_TIMEOUT HAL_OK HAL_OK HAL_OK HAL_OK
                (completed [100; 2048]) 0 [])).
Proof.
  refine (proj1 (adc_init_failure_halts_main
            (mkBoard HAL_OK HAL_TIMEOUT HAL_OK HAL_OK HAL_OK HAL_OK
                     (completed [100; 2048]) 0 []) _) 996%nat).
  discriminate.
Defined.

(** X10.  When the converter initialises but [HAL_ADC_ConfigChannel]
    reports a failure, [main] makes no call after it: from the fifth step on
    it runs for ever inside [Error_Handler], and the serial channel is never
    initialised.  A shorter run has made an initial part of these five
    calls. *)
Theorem adc_channel_failure_halts_main (b : board) :
  adc_init_status b = HAL_OK ->
  adc_config_status b <> HAL_OK ->
  let made := [Call HAL_Init (hal_init_status b);
               Call (HAL_RCC_CLK_ENABLE GPIOA) tt;
               Call (HAL_RCC_CLK_ENABLE ADC1) tt;
               Call (HAL_ADC_Init hadc1_Init) HAL_OK;
               Call (HAL_ADC_ConfigChannel sConfig) (adc_config_status b)] in
  (forall n, exec (5 + n) main b = (Running, record_calls made b))
  /\ (forall n, exists rest,
         calls (snd (exec n main b)) ++ rest = calls b ++ made).
Proof.
  intros Hadc Hst made.
  assert (Hhalt : forall n, exec (5 + n) main b
                            = (Running, record_calls made b)).
  { intros n. now apply exec_main_adc_config_failed. }
  split; [exact Hhalt |].
  apply (calls_so_far main b 5). intros extra.
  rewrite Hhalt. cbn [snd]. apply calls_record_calls.
Qed.

Lemma adc_channel_failure_witness :
  exec 1000 main
       (mkBoard HAL_OK HAL_OK HAL_ERROR HAL_OK HAL_OK HAL_OK
                (completed [100; 2048]) 0 [])
  = (Running,
     record_calls
       [Call HAL_Init HAL_OK;
        Call (HAL_RCC_CLK_ENABLE GPIOA) tt;
        Call (HAL_RCC_CLK_ENABLE ADC1) tt;
        Call (HAL_ADC_Init hadc1_Init) HAL_OK;
        Call (HAL_ADC_ConfigChannel sConfig) HAL_ERROR]
       (mkBoard HAL_OK HAL_OK HAL_ERROR HAL_OK HAL_OK HAL_OK
                (completed [100; 2048]) 0 [])).
Proof.
  refine (proj1 (adc_channel_failure_halts_main
            (mkBoard HAL_OK HAL_OK HAL_ERROR HAL_OK HAL_OK HAL_OK
                     (completed [100; 2048]) 0 []) _ _) 995%nat).
  - reflexivity.
  - discriminate.
Defined.

(** X11.  [main] never returns: on every board, whatever the HAL answers
    and however many steps are taken, the run is still going or is blocked
    inside a HAL call. *)
Theorem main_never_returns (n : nat) (b : board) (r : Z) :
  fst (exec n main b) <> Returned r.
Proof.
  unfold main.
  repeat (apply exec_bind_never_returns; intros).
  apply exec_forever_never_returns.
Qed.

(** X12.  The calls of [main] on any board are those of [main_calls]: the
    start-up calls in source order as far as the first failing
    initialisation, and, when none fails, for each wait of the script the
    wait itself and, only if it reported [HAL_OK], the read, the transmit of
    the formatted buffer with [strlen] as size, and [HAL_Delay(50)], all
    waits and transmits with [HAL_MAX_DELAY].  A run of [main_steps] steps or
    more has made exactly these calls; any run has made an initial part of
    them. *)
Theorem main_makes_exactly_main_calls (b : board) :
  (forall extra,
      calls (snd (exec (main_steps b + extra) main b))
      = calls b ++ main_calls b)
  /\ (forall n, exists rest,
         calls (snd (exec n main b)) ++ rest = calls b ++ main_calls b).
Proof.
  split.
  - apply exec_main_all_calls.
  - apply (calls_so_far main b (main_steps b)), exec_main_all_calls.
Qed.

(** X13.  On a board whose start-up succeeds, whatever mixture of completed
    and failed waits follows, the serial output is exactly one formatted
    line for each wait that reported [HAL_OK], in order, with the data read
    after that wait (32-bit values); failed waits contribute nothing and do
    not disturb the lines around them. *)
Theorem serial_output_follows_the_completed_waits (b : board) (extra : nat) :
  adc_init_status b = HAL_OK ->
  adc_config_status b = HAL_OK ->
  uart_init_status b = HAL_OK ->
  Forall uint32_range (converted (conversions b)) ->
  uart_output (snd (exec (main_steps b + extra) main b))
  = uart_output b ++ List.map format_ADC (converted (conversions b)).
Proof.
  intros Hadc Hcfg Huart Hrange. unfold uart_output.
  rewrite exec_main_all_calls, flat_map_app. f_equal.
  unfold main_calls. rewrite Hadc, Hcfg, Huart.
  cbn [status_eqb negb app flat_map transmitted call_event].
  now apply transmitted_passes.
Qed.

Lemma serial_output_witness :
  uart_output
    (snd (exec 100 main
            (board_at_reset HAL_OK
               [(HAL_OK, 7); (HAL_TIMEOUT, 8); (HAL_ERROR, 9); (HAL_OK, 10)])))
  = [line "ADC: 7"; line "ADC: 10"].
Proof.
  refine (eq_trans
            (serial_output_follows_the_completed_waits
               (board_at_reset HAL_OK
                  [(HAL_OK, 7); (HAL_TIMEOUT, 8); (HAL_ERROR, 9);
                   (HAL_OK, 10)])
               77%nat _ _ _ _) _);
    try reflexivity.
  repeat constructor.
Defined.

(** X14.  [main] never reads the converter without a completed conversion:
    on every board and in every run started with an empty record, each call
    of [HAL_ADC_GetValue] comes directly after a
    [HAL_ADC_PollForConversion] that returned [HAL_OK]. *)
Theorem reads_only_follow_completed_waits (b : board) (n : nat) :
  calls b = [] ->
  reads_follow_waits false (calls (snd (exec n main b))) = true.
Proof.
  intros Hcalls. destruct (exec_main_calls_so_far b n) as [rest Hrest].
  rewrite Hcalls in Hrest. cbn [app] in Hrest.
  apply (reads_follow_waits_app_l _ rest). rewrite Hrest.
  apply reads_follow_waits_main_calls.
Qed.

Lemma reads_only_follow_completed_waits_witness :
  reads_follow_waits false
    (calls (snd (exec 11 main
                   (board_at_reset HAL_OK [(HAL_BUSY, 1); (HAL_OK, 2)]))))
  = true.
Proof.
  refine (reads_only_follow_completed_waits
            (board_at_reset HAL_OK [(HAL_BUSY, 1); (HAL_OK, 2)]) 11 _).
  reflexivity.
Defined.

(** X15.  [main] does not look at what [HAL_Init] returns: even when it
    reports a failure, the start-up goes on with the same calls, and with
    the converter and the serial channel initialised [main] is in the
    sampling loop after its eight start-up calls. *)
Theorem hal_init_failure_does_not_stop_startup (b : board) :
  hal_init_status b <> HAL_OK ->
  adc_init_status b = HAL_OK ->
  adc_config_status b = HAL_OK ->
  uart_init_status b = HAL_OK ->
  (forall n,
      exec (8 + n) main b
      = exec n sampling_loop (record_calls (startup_calls b) b))
  /\ calls (snd (exec 8 main b))
     = calls b
       ++ [Call HAL_Init (hal_init_status b);
           Call (HAL_RCC_CLK_ENABLE GPIOA) tt;
           Call (HAL_RCC_CLK_ENABLE ADC1) tt;
           Call (HAL_ADC_Init hadc1_Init) HAL_OK;
           Call (HAL_ADC_ConfigChannel sConfig) HAL_OK;
           Call (HAL_RCC_CLK_ENABLE USART2) tt;
           Call (HAL_UART_Init huart2_Init) HAL_OK;
           Call HAL_ADC_Start (adc_start_status b)].
Proof.
  intros _ Hadc Hcfg Huart. split.
  - intros n. now apply exec_main_startup.
  - change 8%nat with (8 + 0)%nat.
    rewrite (exec_main_startup 0 b Hadc Hcfg Huart). cbn [exec snd].
    apply calls_record_calls.
Qed.

Lemma hal_init_failure_witness :
  exec (8 + 5) main
       (mkBoard HAL_ERROR HAL_OK HAL_OK HAL_OK HAL_OK HAL_OK
                (completed [2048]) 0 [])
  = exec 5 sampling_loop
      (record_calls
         (startup_calls
            (mkBoard HAL_ERROR HAL_OK HAL_OK HAL_OK HAL_OK HAL_OK
                     (completed [2048]) 0 []))
         (mkBoard HAL_ERROR HAL_OK HAL_OK HAL_OK HAL_OK HAL_OK
                  (completed [2048]) 0 [])).
Proof.
  refine (proj1 (hal_init_failure_does_not_stop_startup
            (mkBoard HAL_ERROR HAL_OK HAL_OK HAL_OK HAL_OK HAL_OK
                     (completed [2048]) 0 []) _ _ _ _) 5%nat).
  - discriminate.
  - reflexivity.
  - reflexivity.
  - reflexivity.
Defined.

(** X16.  [main] does not look at what [HAL_UART_Transmit] returns: when a
    transmit reports a failure the pass goes on as after a success, with
    [HAL_Delay(50)] and the jump back to the wait; the sample is not sent
    again and [Error_Handler] is not entered. *)
Theorem transmit_failure_is_ignored
    (b : board) (v : N) (rest : list (HAL_StatusTypeDef * N)) (n : nat) :
  uart_transmit_status b <> HAL_OK ->
  conversions b = (HAL_OK, v) :: rest ->
  exec (5 + n) sampling_loop b
  = exec n sampling_loop
      (record_calls
         [Call (HAL_ADC_PollForConversion HAL_MAX_DELAY) HAL_OK;
          Call HAL_ADC_GetValue v;
          Call (HAL_UART_Transmit
                  (snprintf sizeof_msg (format_ADC v))
                  (strlen (snprintf sizeof_msg (format_ADC v)))
                  HAL_MAX_DELAY) (uart_transmit_status b);
          Call (HAL_Delay 50) tt]
         (next_conversion v rest b)).
Proof.
  intros _ Hconv. now apply exec_sampling_loop_converted.
Qed.

Lemma transmit_failure_witness :
  exec (5 + 1) sampling_loop (board_at_reset HAL_TIMEOUT (completed [7; 8]))
  = exec 1 sampling_loop
      (record_calls
         [Call (HAL_ADC_PollForConversion HAL_MAX_DELAY) HAL_OK;
          Call HAL_ADC_GetValue 7;
          Call (HAL_UART_Transmit
                  (snprintf sizeof_msg (format_ADC 7))
                  (strlen (snprintf sizeof_msg (format_ADC 7)))
                  HAL_MAX_DELAY) HAL_TIMEOUT;
          Call (HAL_Delay 50) tt]
         (next_conversion 7 (completed [8])
            (board_at_reset HAL_TIMEOUT (completed [7; 8])))).
Proof.
  refine (transmit_failure_is_ignored
            (board_at_reset HAL_TIMEOUT (completed [7; 8])) 7 (completed [8])
            1%nat _ _).
  - discriminate.
  - reflexivity.
Defined.

(** X17.  No information is lost on the serial line: two different 32-bit
    samples are never sent as the same bytes. *)
Theorem different_samples_give_different_lines (v1 v2 : N) :
  uint32_range v1 ->
  uint32_range v2 ->
  firstn (N.to_nat (strlen (snprintf sizeof_msg (format_ADC v1))))
         (snprintf sizeof_msg (format_ADC v1))
  = firstn (N.to_nat (strlen (snprintf sizeof_msg (format_ADC v2))))
           (snprintf sizeof_msg (format_ADC v2)) ->
  v1 = v2.
Proof.
  intros H1 H2 Hsame.
  destruct (msg_holds_whole_text v1 H1) as (_ & _ & Hsent1).
  destruct (msg_holds_whole_text v2 H2) as (_ & _ & Hsent2).
  rewrite Hsent1, Hsent2 in Hsame. now apply format_ADC_injective.
Qed.

Lemma different_samples_witness : 4095 = 4095.
Proof.
  refine (different_samples_give_different_lines 4095 4095 _ _ _);
    reflexivity.
Defined.

(** X18.  The bytes sent for a 32-bit sample are the five characters
    ["ADC: "], then between one and ten characters that are all decimal
    digits and read back as the sample, then CR and LF: between 8 and 17
    bytes, none of them NUL. *)
Theorem sent_line_shape (v : N) :
  uint32_range v ->
  let sent := firstn (N.to_nat (strlen (snprintf sizeof_msg (format_ADC v))))
                     (snprintf sizeof_msg (format_ADC v)) in
  sent = list_ascii_of_string "ADC: " ++ utoa v ++ [CR; LF]
  /\ (1 <= List.length (utoa v) <= 10)%nat
  /\ forallb is_digit (utoa v) = true
  /\ decimal_value (utoa v) = v
  /\ (8 <= List.length sent <= 17)%nat
  /\ Forall not_NUL sent.
Proof.
  intros Hv sent. subst sent.
  destruct (msg_holds_whole_text v Hv) as (_ & _ & Hsent). rewrite Hsent.
  pose proof (utoa_length_uint32 v Hv) as Hmax.
  pose proof (utoa_not_empty v) as Hmin.
  split; [reflexivity |]. split; [lia |]. split.
  { unfold utoa. rewrite forallb_forall. intros c Hc.
    apply in_rev in Hc. revert c Hc. rewrite <- forallb_forall.
    apply utoa_rev_digits. }
  split; [apply utoa_value |]. split.
  - unfold format_ADC. rewrite !length_app.
    cbn [List.length list_ascii_of_string]. lia.
  - apply format_ADC_not_NUL.
Qed.

Lemma sent_line_shape_witness :
  (8 <= List.length
          (firstn (N.to_nat (strlen (snprintf sizeof_msg (format_ADC 0))))
                  (snprintf sizeof_msg (format_ADC 0))) <= 17)%nat.
Proof.
  refine (proj1 (proj2 (proj2 (proj2 (proj2 (sent_line_shape 0 _)))))).
  reflexivity.
Defined.

End FirmwareMore.
